(** * Cluster member lists and line-of-sight distances

    A shallow embedding of the notebooks of the repository that carry
    program logic:

    - [Create_Cluster_Member_Lists.ipynb]: the identity map [dict_props_ID],
      the row-range index [dict_ID_slice] and the extractor [save_mem_list];
    - the physical-separation notebook: [LOS_distance_diff], over a
      cosmology whose distance functions are the caller's;
    - [HSC_ACT_Offset_Distribution.ipynb]: the exclusion flag and the
      selections between and above the cutoffs (the densities and the fit
      call [np.exp] and a numerical minimizer and are left out).

    Catalog values are IEEE binary64 numbers (numpy [float64]); they are
    modelled by the kernel's primitive floats, so that [==], [>] and [<=] are
    the IEEE comparisons the notebooks run (a NaN is different from itself,
    [0.0] equals [-0.0]).  Python dictionaries are insertion-ordered
    association lists under the key equality the interpreter uses.  A raised
    exception is a value of [result]; the file system touched by
    [np.savetxt] is an explicit state. *)

From Stdlib Require Import String.
From Stdlib Require Import List Bool Arith Lia ZArith.
From Stdlib Require Import Floats.
Import ListNotations.

Set Implicit Arguments.
Set Warnings "-inexact-float".

(* ================================================================== *)
(** * Exceptions *)

Inductive exn : Type :=
| KeyError
| IndexError
| TypeError
| FileNotFoundError.

Inductive result (A : Type) : Type :=
| Ok (a : A)
| Raise (e : exn).

Arguments Ok {A} a.
Arguments Raise {A} e.

Definition bind {A B : Type} (r : result A) (k : A -> result B) : result B :=
  match r with
  | Ok a => k a
  | Raise e => Raise e
  end.

Notation "x <- r ;; k" := (bind r (fun x => k))
  (at level 61, r at next level, right associativity).

(** [for i in is: st = body(i, st)], stopping at the first exception. *)
Fixpoint for_range {S : Type} (body : nat -> S -> result S)
         (range : list nat) (st : S) : result S :=
  match range with
  | [] => Ok st
  | i :: rest => st' <- body i st ;; for_range body rest st'
  end.

(* ================================================================== *)
(** * The numpy operations the notebooks call *)

Module Numpy.

(** 2^52: from here on every binary64 number is an integer. *)
Definition two52 : float := 4503599627370496%float.

(** [np.rint]: nearest integer, ties to even, the sign kept.  Below 2^52
    adding and removing 2^52 rounds to the unit in the current mode. *)
Definition rint (x : float) : float :=
  if (abs x <? two52)%float then
    if (x =? 0)%float then x
    else if (x <? 0)%float then (- ((- x + two52) - two52))%float
    else ((x + two52) - two52)%float
  else x.

(** [np.round(x, 3)]: multiply by [10**3], [rint], divide by [10**3]. *)
Definition round3 (x : float) : float :=
  (rint (x * 1000) / 1000)%float.

(** [np.round(x)], zero decimals: [rint]. *)
Definition round0 (x : float) : float := rint x.

(** [a[mask]] for a boolean mask of the length of [a]. *)
Fixpoint bool_index {A : Type} (a : list A) (mask : list bool) : list A :=
  match a, mask with
  | x :: a', b :: mask' =>
      if b then x :: bool_index a' mask' else bool_index a' mask'
  | _, _ => []
  end.

(** [slice(start, stop)] with non-negative bounds and step 1. *)
Record slice : Type := mkslice { start : nat; stop : nat }.

(** [a[slice(start, stop)]]; bounds past the end are clamped. *)
Definition getslice {A : Type} (a : list A) (s : slice) : list A :=
  firstn (stop s - start s) (skipn (start s) a).

End Numpy.

(* ================================================================== *)
(** * Python dictionaries *)

(** A [dict] keeps its keys in insertion order.  Assigning to a key that is
    already present (some stored key [k'] with [k' == k]) replaces the value
    and keeps the stored key and its place; otherwise the pair goes to the
    end.  [keq] is the interpreter's key equality; for tuples of floats it
    is not reflexive (NaN), so it is a parameter of the structure. *)

Module PyDict.
Section Dict.

Variables K V : Type.
Variable keq : K -> K -> bool.

Definition dict : Type := list (K * V).

(** [d[k]], [None] standing for the [KeyError]. *)
Fixpoint get (d : dict) (k : K) : option V :=
  match d with
  | [] => None
  | (k', v) :: d' => if keq k' k then Some v else get d' k
  end.

(** [d[k] = v]. *)
Fixpoint set (d : dict) (k : K) (v : V) : dict :=
  match d with
  | [] => [(k, v)]
  | (k', v') :: d' =>
      if keq k' k then (k', v) :: d' else (k', v') :: set d' k v
  end.

(** [dict(pairs)]: the pairs are assigned one after the other. *)
Definition of_list (pairs : list (K * V)) : dict :=
  fold_left (fun d kv => set d (fst kv) (snd kv)) pairs [].

(** [len(d)]. *)
Definition len (d : dict) : nat := List.length d.

(** [d[k]] as an expression that may raise. *)
Definition lookup (d : dict) (k : K) : result V :=
  match get d k with
  | Some v => Ok v
  | None => Raise KeyError
  end.

(** [list(d.keys())] and [list(d.values())]. *)
Definition keys (d : dict) : list K := map fst d.
Definition values (d : dict) : list V := map snd d.

(** [k in d]. *)
Definition mem (d : dict) (k : K) : bool :=
  existsb (fun k' => keq k' k) (keys d).

(** How many of the keys [ks] are new, none of [seen] and none of the keys
    before it being equal to it: the number of distinct keys of [ks] when
    [seen] is empty. *)
Fixpoint distinct_from (seen ks : list K) : nat :=
  match ks with
  | [] => 0
  | k :: rest =>
      (if existsb (fun k' => keq k' k) seen then 0 else 1)
      + distinct_from (k :: seen) rest
  end.

(** The value of the last pair of [pairs] whose key equals [k]: what a
    last-write-wins reading of the pairs gives. *)
Fixpoint last_write (pairs : list (K * V)) (k : K) : option V :=
  match pairs with
  | [] => None
  | (k', v) :: rest =>
      match last_write rest k with
      | Some v' => Some v'
      | None => if keq k' k then Some v else None
      end
  end.

End Dict.
End PyDict.

(* ================================================================== *)
(** * Create_Cluster_Member_Lists *)

Module MemberLists.

Import Numpy.

(** A row of the cluster catalog file: columns 0, 1, 2 (read into
    [HSC_cl_cat]) and column 6 (read into [HSC_cl_cat_IDs]).  The two
    arrays come from the same file, row for row. *)
Record cluster_row : Type := mkcluster {
  cl_RA : float;   (* HSC_cl_cat[i, 0] *)
  cl_dec : float;  (* HSC_cl_cat[i, 1] *)
  cl_z : float;    (* HSC_cl_cat[i, 2] *)
  cl_ID : string   (* HSC_cl_cat_IDs[i] *)
}.

(** A row of [full_member_cat]; the columns the notebook reads. *)
Record member_row : Type := mkmember {
  c0 : float;  (* full_member_cat[i, 0]: RA of the parent cluster *)
  c1 : float;  (* full_member_cat[i, 1]: declination of the parent cluster *)
  c3 : float;  (* full_member_cat[i, 3]: redshift of the parent cluster *)
  c4 : float;  (* column 4: RA of the galaxy *)
  c5 : float;  (* column 5: declination of the galaxy *)
  c7 : float   (* column 7: membership probability *)
}.

(** The key [(RA, dec, z)]. *)
Definition props : Type := (float * float * float)%type.

(** Equality of two key tuples: component by component with [==]. *)
Definition props_eqb (a b : props) : bool :=
  let '(ra1, dec1, z1) := a in
  let '(ra2, dec2, z2) := b in
  (ra1 =? ra2)%float && (dec1 =? dec2)%float && (z1 =? z2)%float.

(** ** Dictionary of cluster properties to cluster ID *)

Definition list_props_ID (HSC_cl_cat : list cluster_row)
  : list (props * string) :=
  map (fun row =>
         let RA := cl_RA row in
         let dec := cl_dec row in
         let z := round3 (cl_z row) in
         let ID := cl_ID row in
         ((RA, dec, z), ID))
      HSC_cl_cat.

Definition dict_props_ID (HSC_cl_cat : list cluster_row)
  : PyDict.dict props string :=
  PyDict.of_list props_eqb (list_props_ID HSC_cl_cat).

(** ** Dictionary of cluster ID to slice in the full member list *)

Record loop_state : Type := mkstate {
  list_ID_slice : list (string * slice);
  low_ind : nat;
  high_ind : nat
}.

Definition init_state : loop_state :=
  {| list_ID_slice := []; low_ind := 0; high_ind := 0 |}.

(** The test that ends in [continue]: row [i] is not the last one and the
    next row has the same RA and the same redshift. *)
Definition same_as_next (full_member_cat : list member_row) (i : nat)
           (cluster_RA cluster_z : float) : result bool :=
  if i <? List.length full_member_cat - 1 then
    match nth_error full_member_cat (i + 1) with
    | Some next =>
        Ok ((cluster_RA =? c0 next)%float && (cluster_z =? c3 next)%float)
    | None => Raise IndexError
    end
  else Ok false.

(** The nested [try]/[except] around [dict_props_ID[props]]. *)
Definition resolve_ID (d : PyDict.dict props string)
           (cluster_RA cluster_dec cluster_z : float) : result string :=
  match PyDict.get props_eqb d (cluster_RA, cluster_dec, cluster_z) with
  | Some ID => Ok ID
  | None =>
      match PyDict.get props_eqb d
              (cluster_RA, cluster_dec, round3 (cluster_z + 0.001)) with
      | Some ID => Ok ID
      | None =>
          PyDict.lookup props_eqb d
            (cluster_RA, cluster_dec, round3 (cluster_z - 0.001))
      end
  end.

(** One iteration of the scan over [full_member_cat]. *)
Definition index_step (d : PyDict.dict props string)
           (full_member_cat : list member_row)
           (i : nat) (st : loop_state) : result loop_state :=
  match nth_error full_member_cat i with
  | None => Raise IndexError
  | Some row =>
      let cluster_RA := c0 row in
      let cluster_dec := c1 row in
      let cluster_z := c3 row in
      same <- same_as_next full_member_cat i cluster_RA cluster_z ;;
      if same then Ok st
      else
        ID <- resolve_ID d cluster_RA cluster_dec cluster_z ;;
        let high_ind := i + 1 in
        Ok {| list_ID_slice :=
                list_ID_slice st ++ [(ID, mkslice (low_ind st) high_ind)];
              low_ind := high_ind;
              high_ind := high_ind |}
  end.

(** The whole scan: [for i in range(len(full_member_cat))]. *)
Definition scan (d : PyDict.dict props string)
           (full_member_cat : list member_row) : result loop_state :=
  for_range (index_step d full_member_cat)
            (seq 0 (List.length full_member_cat)) init_state.

(** The list the scan appends to, once the loop is over. *)
Definition build_list_ID_slice (d : PyDict.dict props string)
           (full_member_cat : list member_row)
  : result (list (string * slice)) :=
  st <- scan d full_member_cat ;; Ok (list_ID_slice st).

(** [dict_ID_slice = dict(list_ID_slice)]. *)
Definition dict_ID_slice (d : PyDict.dict props string)
           (full_member_cat : list member_row)
  : result (PyDict.dict string slice) :=
  l <- build_list_ID_slice d full_member_cat ;;
  Ok (PyDict.of_list String.eqb l).

(** ** save_mem_list *)

(** What [np.savetxt(fname, X, delimiter, header)] leaves at [fname]. *)
Record artifact : Type := mkartifact {
  art_header : string;
  art_delimiter : string;
  art_X : list (float * float)
}.

(** The files written so far, by path.  Directories are taken to exist. *)
Definition filesystem : Type := PyDict.dict string artifact.

Definition np_savetxt (fname : string) (X : list (float * float))
           (delimiter header : string) (fs : filesystem) : filesystem :=
  PyDict.set String.eqb fs fname
             {| art_header := header; art_delimiter := delimiter;
                art_X := X |}.

(** [(col7 > prob_min) & (col7 <= prob_max)], one boolean per row. *)
Definition in_prob_range (prob_min prob_max : float)
           (mem_list_no_cut : list member_row) : list bool :=
  map (fun row => (prob_min <? c7 row)%float && (c7 row <=? prob_max)%float)
      mem_list_no_cut.

(** [mem_list_no_cut[in_prob_range][:, 4:6]]. *)
Definition cut_mem_list (prob_min prob_max : float)
           (mem_list_no_cut : list member_row) : list (float * float) :=
  map (fun row => (c4 row, c5 row))
      (bool_index mem_list_no_cut
                  (in_prob_range prob_min prob_max mem_list_no_cut)).

(** The two local constants of [save_mem_list], with their [str]. *)
Definition prob_min : float := 0.1%float.
Definition prob_max : float := 1%float.
Definition str_prob_min : string := "0.1".
Definition str_prob_max : string := "1".

Definition mem_list_path (ID : string) : string :=
  ("Miscentered_Clusters_blank/" ++ ID ++ "/" ++
   ID ++ "_P=" ++ str_prob_min ++ "to" ++ str_prob_max ++ ".csv")%string.

(** [save_mem_list(ID)]: the outcome and the file system it leaves. *)
Definition save_mem_list (dict_ID_slice : PyDict.dict string slice)
           (full_member_cat : list member_row)
           (ID : string) (fs : filesystem) : result unit * filesystem :=
  let path := mem_list_path ID in
  match PyDict.get String.eqb dict_ID_slice ID with
  | None => (Raise KeyError, fs)
  | Some member_slice =>
      let mem_list_no_cut := getslice full_member_cat member_slice in
      let mem_list := cut_mem_list prob_min prob_max mem_list_no_cut in
      (Ok tt, np_savetxt path mem_list "," "ra, dec" fs)
  end.

End MemberLists.

(* ================================================================== *)
(** * Physical separations *)

Module PhysicalSep.

(** The cosmology model is the caller's: only the two distance functions
    the notebook calls, with the units left out. *)
Record cosmology : Type := mkcosmo {
  angular_diameter_distance : float -> float;
  comoving_distance : float -> float
}.

Definition LOS_distance_diff (cosmo : cosmology) (z1 z2 : float) : float :=
  let d2 := (comoving_distance cosmo z2 / (1 + z1))%float in
  let d1 := (comoving_distance cosmo z1 / (1 + z1))%float in
  Numpy.round0 (d2 - d1).

End PhysicalSep.

(* ================================================================== *)
(** * Small catalogs *)

Module Examples.

Import Numpy MemberLists.

(** Two clusters; the catalog redshifts carry more than three decimals. *)
Definition cl_A : cluster_row :=
  mkcluster 10.5 (-1.25) 0.3004 "C19a1sW00001".
Definition cl_B : cluster_row :=
  mkcluster 20.25 2.5 0.4521 "C19a1sW00002".
Definition cl_cat : list cluster_row := [cl_A; cl_B].

(** A third row whose key is the key of A: same RA and declination, and a
    redshift that rounds to 0.3 too. *)
Definition cl_A' : cluster_row :=
  mkcluster 10.5 (-1.25) 0.2996 "C19a1sW00003".
Definition cl_cat_collision : list cluster_row := [cl_A; cl_B; cl_A'].

(** A member of cluster A, of cluster B, and of a cluster that is not in
    the catalog: galaxy coordinates and probability are the arguments. *)
Definition mem_A (ra dec p : float) : member_row :=
  mkmember 10.5 (-1.25) 0.3 ra dec p.
Definition mem_B (ra dec p : float) : member_row :=
  mkmember 20.25 2.5 0.452 ra dec p.
Definition mem_lost (ra dec p : float) : member_row :=
  mkmember 99 0 0.7 ra dec p.

(** Two rows with the RA and the redshift of A and two declinations. *)
Definition mem_cat_two_decs : list member_row :=
  [ mkmember 10.5 7 0.3 10.51 7.01 0.9; mem_A 10.52 (-1.26) 0.1 ].

(** Four members of A with probabilities 0.05, 0.1, 0.5, 1.0, then two
    members of B. *)
Definition mem_cat : list member_row :=
  [ mem_A 10.51 (-1.24) 0.05; mem_A 10.52 (-1.26) 0.1;
    mem_A 10.49 (-1.25) 0.5;  mem_A 10.5 (-1.23) 1;
    mem_B 20.26 2.51 0.9;     mem_B 20.24 2.49 0.02 ].

(** Only members of A. *)
Definition mem_cat_A_only : list member_row :=
  [ mem_A 10.51 (-1.24) 0.05; mem_A 10.52 (-1.26) 0.1 ].

(** The rows of A are split by the rows of B: the catalog is not sorted by
    cluster. *)
Definition mem_cat_split : list member_row :=
  [ mem_A 10.51 (-1.24) 0.05; mem_A 10.52 (-1.26) 0.1;
    mem_B 20.26 2.51 0.9;
    mem_A 10.49 (-1.25) 0.5 ].

(** A run whose key is in no catalog row, between two runs that resolve. *)
Definition mem_cat_lost : list member_row :=
  [ mem_A 10.51 (-1.24) 0.05; mem_lost 99.01 0.01 0.8;
    mem_B 20.26 2.51 0.9 ].

(** A cosmology for small redshifts: both distances follow Hubble's law
    with c/H0 = 4282.7 Mpc. *)
Definition hubble_law : PhysicalSep.cosmology :=
  {| PhysicalSep.angular_diameter_distance :=
       fun z => (4282.7 * z / (1 + z))%float;
     PhysicalSep.comoving_distance := fun z => (4282.7 * z)%float |}.

End Examples.

(* ================================================================== *)
(** * The tolerance policy as a list *)

(** The specification's reading of the nested [try]/[except]: an ordered
    list of candidate keys, tried in sequence.  [resolve_ID] above is the
    notebook's code; the two are compared below. *)

Module Policy.

Import Numpy MemberLists.

(** The keys tried for a run, in order: the stored redshift, then the
    redshift nudged by +0.001 and by -0.001, each re-rounded to 3 decimals. *)
Definition candidate_keys (cluster_RA cluster_dec cluster_z : float)
  : list props :=
  [ (cluster_RA, cluster_dec, cluster_z);
    (cluster_RA, cluster_dec, round3 (cluster_z + 0.001));
    (cluster_RA, cluster_dec, round3 (cluster_z - 0.001)) ].

(** The ID of the first candidate the identity map knows; a [KeyError] when
    it knows none. *)
Fixpoint first_hit (d : PyDict.dict props string) (candidates : list props)
  : result string :=
  match candidates with
  | [] => Raise KeyError
  | k :: rest =>
      match PyDict.get props_eqb d k with
      | Some ID => Ok ID
      | None => first_hit d rest
      end
  end.

End Policy.

(* ================================================================== *)
(** * Vocabulary of the statements *)

Module Members.

Import MemberLists.

(** The (RA, dec) pair of a member galaxy. *)
Definition gal_coords (row : member_row) : float * float :=
  (c4 row, c5 row).

(** The two columns the run-boundary test reads. *)
Definition RA_and_z (row : member_row) : float * float :=
  (c0 row, c3 row).

(** The key a cluster catalog row is stored under. *)
Definition cluster_key (row : cluster_row) : props :=
  (cl_RA row, cl_dec row, Numpy.round3 (cl_z row)).

(** The number of distinct keys among the rows of the cluster catalog. *)
Definition distinct_keys (HSC_cl_cat : list cluster_row) : nat :=
  PyDict.distinct_from props_eqb [] (map cluster_key HSC_cl_cat).

(** [lo < p <= hi] for the probability [p] of a member. *)
Definition prob_within (lo hi : float) (row : member_row) : bool :=
  (lo <? c7 row)%float && (c7 row <=? hi)%float.

End Members.

Module Ranges.

Import Numpy.

(** Row [j] lies in the half-open range [s]. *)
Definition covers (s : slice) (j : nat) : Prop :=
  start s <= j < stop s.

(** [ranges] tile [lo, hi): the first one starts at [lo], each one is
    non-empty and starts where the one before stops, the last one stops
    at [hi]. *)
Fixpoint chained (lo : nat) (ranges : list slice) (hi : nat) : Prop :=
  match ranges with
  | [] => lo = hi
  | s :: rest => start s = lo /\ start s < stop s /\ chained (stop s) rest hi
  end.

End Ranges.

(* ================================================================== *)
(** * The loop over the miscentered clusters *)

Module Driver.

Import Numpy MemberLists.


(** [for ID in IDs: save_mem_list(ID)]: the first exception ends the loop
    and leaves the file system as the calls before it made it. *)
Fixpoint save_each (dict_ID_slice : PyDict.dict string slice)
         (full_member_cat : list member_row)
         (IDs : list string) (fs : filesystem) : result unit * filesystem :=
  match IDs with
  | [] => (Ok tt, fs)
  | ID :: rest =>
      match save_mem_list dict_ID_slice full_member_cat ID fs with
      | (Ok _, fs') => save_each dict_ID_slice full_member_cat rest fs'
      | (Raise e, fs') => (Raise e, fs')
      end
  end.


End Driver.

(* ================================================================== *)
(** * HSC_ACT_Offset_Distribution: the selection of clusters *)

Module OffsetDistribution.

Import Numpy.

(** A row of the crossmatch table: the two columns the notebook reads. *)
Record cm_row : Type := mkcm {
  offset_Mpc : float;  (* cm_catalog['Offset (Mpc)'] *)
  cause : string       (* cm_catalog['Cause of miscentering'] *)
}.















End OffsetDistribution.

(* ================================================================== *)
(** * More small inputs *)

Module MoreExamples.

Import Numpy MemberLists OffsetDistribution.

(** The index of the two-cluster catalog of [Examples]. *)
Definition idx_AB : PyDict.dict string slice :=
  [("C19a1sW00001"%string, mkslice 0 4);
   ("C19a1sW00002"%string, mkslice 4 6)].

(** The six-row catalog of [Examples], block by block. *)
Definition blocks_AB : list (string * list member_row) :=
  [ ("C19a1sW00001"%string,
     [ Examples.mem_A 10.51 (-1.24) 0.05; Examples.mem_A 10.52 (-1.26) 0.1;
       Examples.mem_A 10.49 (-1.25) 0.5;  Examples.mem_A 10.5 (-1.23) 1 ]);
    ("C19a1sW00002"%string,
     [ Examples.mem_B 20.26 2.51 0.9;     Examples.mem_B 20.24 2.49 0.02 ]) ].


(** Two runs whose stored redshifts are off by 0.001: cluster A stored at
    0.299 (found at +0.001), cluster B stored at 0.453 (found at -0.001). *)
Definition mem_cat_nudged : list member_row :=
  [ mkmember 10.5 (-1.25) 0.299 10.51 (-1.24) 0.9;
    mkmember 10.5 (-1.25) 0.299 10.52 (-1.26) 0.4;
    mkmember 20.25 2.5 0.453 20.26 2.51 0.9 ].

(** A catalog of two rows; the parent RA of the first was read as NaN. *)
Definition mem_cat_nan : list member_row :=
  [ mkmember nan (-1.25) 0.3 10.51 (-1.24) 0.9;
    Examples.mem_A 10.52 (-1.26) 0.1 ].

(** A crossmatch table: a clean cluster below the cutoffs, one between
    them, a star between them, a clean one above, an artifact above. *)
Definition cm_cat : list cm_row :=
  [ mkcm 0.05 ""; mkcm 0.35 ""; mkcm 0.34 "Star";
    mkcm 0.9 "Merger"; mkcm 1.2 "Artifact" ].

End MoreExamples.

(* ================================================================== *)
(** * Vocabulary of the statements on runs and keys *)

Module Runs.

Import Numpy MemberLists Members.

(** Row [i] and the row after it pass the test that ends in [continue]. *)
Definition linked (full_member_cat : list member_row) (i : nat) : Prop :=
  exists row, nth_error full_member_cat i = Some row /\
              same_as_next full_member_cat i (c0 row) (c3 row) = Ok true.

(** Row [i] is [row] and fails that test: it is the last row of a run. *)
Definition closing (full_member_cat : list member_row) (i : nat)
           (row : member_row) : Prop :=
  nth_error full_member_cat i = Some row /\
  same_as_next full_member_cat i (c0 row) (c3 row) = Ok false.

(** The same as a test on the index alone. *)
Definition closes (full_member_cat : list member_row) (i : nat) : bool :=
  match nth_error full_member_cat i with
  | Some row =>
      match same_as_next full_member_cat i (c0 row) (c3 row) with
      | Ok false => true
      | _ => false
      end
  | None => false
  end.

(** The [continue] test on two rows: same RA and same redshift. *)
Definition same_run (a b : member_row) : bool :=
  (c0 a =? c0 b)%float && (c3 a =? c3 b)%float.

(** Every row passes the test with the row after it. *)
Fixpoint one_run (rows : list member_row) : bool :=
  match rows with
  | a :: rest =>
      match rest with
      | b :: _ => same_run a b && one_run rest
      | [] => true
      end
  | [] => true
  end.

(** The last row of an array, if it has one. *)
Definition last_row (rows : list member_row) : option member_row :=
  nth_error rows (List.length rows - 1).

(** The last row of [cat1] and the first row of [cat2], when both are
    there, fail the test. *)
Definition boundary (cat1 cat2 : list member_row) : Prop :=
  forall a b, last_row cat1 = Some a -> nth_error cat2 0 = Some b ->
              same_run a b = false.

(** An entry moved [k] rows down the catalog. *)
Definition shift (k : nat) (e : string * slice) : string * slice :=
  (fst e, mkslice (k + start (snd e)) (k + stop (snd e))).

(** The state [st'] of the scan of a catalog seen from the scan of that
    catalog put after [k] rows that gave the entries [l1]. *)
Definition moved (k : nat) (l1 : list (string * slice))
           (st st' : loop_state) : Prop :=
  list_ID_slice st = l1 ++ map (shift k) (list_ID_slice st') /\
  low_ind st = k + low_ind st'.

(** A catalog given block by block, each with the ID expected for it: the
    entries one expects, the first block starting at row [off]. *)
Fixpoint entries_of (off : nat) (blocks : list (string * list member_row))
  : list (string * slice) :=
  match blocks with
  | [] => []
  | (ID, rows) :: rest =>
      (ID, mkslice off (off + List.length rows))
      :: entries_of (off + List.length rows) rest
  end.

(** The catalog is sorted by cluster: each block is one run, its last row
    resolves to the block's ID, and it is cut off from the block after
    it. *)
Fixpoint well_sorted (d : PyDict.dict props string)
         (blocks : list (string * list member_row)) : Prop :=
  match blocks with
  | [] => True
  | (ID, rows) :: rest =>
      one_run rows = true /\
      (exists row, last_row rows = Some row /\
                   resolve_ID d (c0 row) (c1 row) (c3 row) = Ok ID) /\
      boundary rows (concat (map snd rest)) /\
      well_sorted d rest
  end.

(** What the scan knows of an entry once it is appended, after the rows
    below [n]: its range stops by [n], is not empty, links its rows, and
    its last row closes the run and resolves to the entry's ID. *)
Definition entry_ok (d : PyDict.dict props string)
           (full_member_cat : list member_row)
           (n : nat) (e : string * slice) : Prop :=
  stop (snd e) <= n /\
  start (snd e) < stop (snd e) /\
  (forall i, start (snd e) <= i -> i + 1 < stop (snd e) ->
             linked full_member_cat i) /\
  (exists row, closing full_member_cat (stop (snd e) - 1) row /\
               resolve_ID d (c0 row) (c1 row) (c3 row) = Ok (fst e)).

(** No two rows of the cluster catalog have equal keys. *)
Definition unique_keys (HSC_cl_cat : list cluster_row) : Prop :=
  ForallOrdPairs
    (fun a b => props_eqb (cluster_key a) (cluster_key b) = false)
    HSC_cl_cat.

(** What [save_mem_list] writes for the rows of a slice. *)
Definition mem_list_artifact (full_member_cat : list member_row)
           (member_slice : slice) : artifact :=
  {| art_header := "ra, dec"; art_delimiter := ",";
     art_X := map gal_coords
                  (filter (prob_within 0.1 1)
                          (getslice full_member_cat member_slice)) |}.

End Runs.

(** What [==] decides, read on the specification of binary64 numbers: two
    zeros of any sign, or the same infinity, or the same finite number. *)
Definition same_number (a b : spec_float) : Prop :=
  match a, b with
  | S754_zero _, S754_zero _ => True
  | S754_infinity s1, S754_infinity s2 => s1 = s2
  | S754_finite s1 m1 e1, S754_finite s2 m2 e2 =>
      s1 = s2 /\ m1 = m2 /\ e1 = e2
  | _, _ => False
  end.

Import Numpy MemberLists PhysicalSep Policy Members Ranges.

(** The invariant of the scan of a catalog of [M] rows after the rows below [n]: the appended ranges
    tile [0, low_ind), [low_ind] is at most [n], and it is [n] once the last
    row is done. *)
Definition scan_inv (M n : nat) (st : loop_state) : Prop :=
  chained 0 (map snd (list_ID_slice st)) (low_ind st) /\
  low_ind st <= n /\
  (n = M -> low_ind st = M).

Import Driver OffsetDistribution Runs.

(** The invariant of the scan that carries the runs: the tiling, the
    entries appended so far, and the rows of the run that is still open. *)
Definition run_inv (d : PyDict.dict props string)
           (full_member_cat : list member_row)
           (n : nat) (st : loop_state) : Prop :=
  scan_inv (List.length full_member_cat) n st /\
  (forall e, In e (list_ID_slice st) -> entry_ok d full_member_cat n e) /\
  (forall i, low_ind st <= i < n -> linked full_member_cat i).

Unset Implicit Arguments.

(* ================================================================== *)
(** * The loop rule *)

Section ForRange.

Variable S : Type.
Variable body : nat -> S -> result S.

Lemma for_range_app (r1 r2 : list nat) (st : S) :
  for_range body (r1 ++ r2) st =
  (st' <- for_range body r1 st ;; for_range body r2 st').
Proof.
  revert st; induction r1 as [|i r1 IH]; intros st; simpl.
  - reflexivity.
  - destruct (body i st) as [st'|e]; simpl; [apply IH | reflexivity].
Qed.

(** An invariant indexed by the loop counter is carried from the first
    index to one past the last. *)
Lemma for_range_seq_inv (P : nat -> S -> Prop) (len lo : nat) (st st' : S) :
  (forall i s s', lo <= i < lo + len -> P i s -> body i s = Ok s' ->
                  P (i + 1) s') ->
  P lo st ->
  for_range body (seq lo len) st = Ok st' ->
  P (lo + len) st'.
Proof.
  revert lo st; induction len as [|len IH]; intros lo st Hstep Hinit Hrun.
  - simpl in Hrun. injection Hrun as <-. now rewrite Nat.add_0_r.
  - simpl in Hrun. destruct (body lo st) as [s1|e] eqn:Hb; simpl in Hrun;
      [|discriminate].
    replace (lo + Datatypes.S len) with (Datatypes.S lo + len) by lia.
    apply (IH (Datatypes.S lo) s1); [| |exact Hrun].
    + intros i s s' Hi. apply Hstep. lia.
    + replace (Datatypes.S lo) with (lo + 1) by lia.
      apply (Hstep lo st s1); [lia | exact Hinit | exact Hb].
Qed.

(** The exceptions a loop raises are exceptions of its body. *)
Lemma for_range_raise (Q : exn -> Prop) (range : list nat) (st : S) (e : exn) :
  (forall i s e', In i range -> body i s = Raise e' -> Q e') ->
  for_range body range st = Raise e -> Q e.
Proof.
  revert st; induction range as [|i rest IH]; intros st Hb Hrun;
    simpl in Hrun; [discriminate|].
  destruct (body i st) as [s1|e1] eqn:Hbi; simpl in Hrun.
  - apply (IH s1); [|exact Hrun]. intros j s e' Hj. apply Hb. now right.
  - injection Hrun as <-. apply (Hb i st); [now left | exact Hbi].
Qed.

End ForRange.

(* ================================================================== *)
(** * Facts about dictionaries *)

Section DictFacts.

Variables K V : Type.
Variable keq : K -> K -> bool.

#[local] Abbreviation get := (PyDict.get keq).
#[local] Abbreviation set := (PyDict.set keq).
#[local] Abbreviation of_list := (PyDict.of_list keq).
#[local] Abbreviation last_write := (PyDict.last_write keq).

Lemma get_In (d : PyDict.dict K V) (k : K) (v : V) :
  get d k = Some v -> exists k', In (k', v) d /\ keq k' k = true.
Proof.
  induction d as [|[k1 v1] d IH]; simpl; [discriminate|].
  destruct (keq k1 k) eqn:E.
  - intros [= <-]. exists k1. split; [now left | exact E].
  - intros H. destruct (IH H) as (k' & Hin & Hk). exists k'.
    split; [now right | exact Hk].
Qed.

Lemma get_value (d : PyDict.dict K V) (k : K) (v : V) :
  get d k = Some v -> In v (PyDict.values d).
Proof.
  intros H. destruct (get_In _ _ _ H) as (k' & Hin & _).
  unfold PyDict.values. change v with (snd (k', v)). now apply in_map.
Qed.

Lemma last_write_In (l : list (K * V)) (k : K) (v : V) :
  last_write l k = Some v -> exists k', In (k', v) l /\ keq k' k = true.
Proof.
  induction l as [|[k1 v1] l IH]; simpl; [discriminate|].
  destruct (last_write l k) as [v'|] eqn:E.
  - intros [= <-]. destruct (IH eq_refl) as (k' & Hin & Hk).
    exists k'. split; [now right | exact Hk].
  - destruct (keq k1 k) eqn:E1; [|discriminate].
    intros [= <-]. exists k1. split; [now left | exact E1].
Qed.

Lemma last_write_app (l1 l2 : list (K * V)) (k : K) :
  last_write (l1 ++ l2) k =
  match last_write l2 k with
  | Some v => Some v
  | None => last_write l1 k
  end.
Proof.
  induction l1 as [|[k1 v1] l1 IH]; simpl.
  - now destruct (last_write l2 k).
  - rewrite IH. destruct (last_write l2 k); [reflexivity|].
    reflexivity.
Qed.

Lemma last_write_none (l : list (K * V)) (k : K) :
  (forall kv, In kv l -> keq (fst kv) k = false) -> last_write l k = None.
Proof.
  induction l as [|[k1 v1] l IH]; simpl; intros H; [reflexivity|].
  rewrite IH by (intros kv Hkv; apply H; now right).
  specialize (H (k1, v1) (or_introl eq_refl)). simpl in H. now rewrite H.
Qed.

(** The keys of a dictionary all come from the pairs assigned to it. *)
Lemma keys_set_incl (d : PyDict.dict K V) (k : K) (v : V) :
  incl (PyDict.keys (set d k v)) (k :: PyDict.keys d).
Proof.
  induction d as [|[k1 v1] d IH]; simpl.
  - apply incl_refl.
  - destruct (keq k1 k); simpl.
    + apply incl_tl, incl_refl.
    + intros x [<-|Hx]; [right; now left|].
      destruct (IH x Hx) as [<-|Hx']; [now left | right; now right].
Qed.

Lemma keys_set_keep (d : PyDict.dict K V) (k : K) (v : V) :
  incl (PyDict.keys d) (PyDict.keys (set d k v)).
Proof.
  induction d as [|[k1 v1] d IH]; simpl.
  - intros x [].
  - destruct (keq k1 k); simpl.
    + apply incl_refl.
    + intros x [<-|Hx]; [now left | right; now apply IH].
Qed.

(** ** Key equalities that are partial equivalences *)

Section Per.

Hypothesis keq_sym : forall a b, keq a b = true -> keq b a = true.
Hypothesis keq_trans :
  forall a b c, keq a b = true -> keq b c = true -> keq a c = true.

Lemma keq_congr_r (a b c : K) : keq b c = true -> keq a b = keq a c.
Proof.
  intros Hbc. destruct (keq a b) eqn:E1, (keq a c) eqn:E2; try reflexivity.
  - rewrite (keq_trans _ _ _ E1 Hbc) in E2. discriminate.
  - rewrite (keq_trans _ _ _ E2 (keq_sym _ _ Hbc)) in E1. discriminate.
Qed.

(** Reading after one assignment. *)
Lemma get_set (d : PyDict.dict K V) (k1 k : K) (v : V) :
  get (set d k1 v) k = if keq k1 k then Some v else get d k.
Proof.
  induction d as [|[k' v'] d IH]; simpl.
  - reflexivity.
  - destruct (keq k' k1) eqn:E1; simpl.
    + destruct (keq k1 k) eqn:E2.
      * now rewrite (keq_trans _ _ _ E1 E2).
      * destruct (keq k' k) eqn:E3; [|reflexivity].
        rewrite (keq_trans _ _ _ (keq_sym _ _ E1) E3) in E2. discriminate.
    + destruct (keq k' k) eqn:E3.
      * destruct (keq k1 k) eqn:E2; [|reflexivity].
        rewrite (keq_trans _ _ _ E3 (keq_sym _ _ E2)) in E1. discriminate.
      * exact IH.
Qed.

Lemma get_fold_set (l : list (K * V)) (d : PyDict.dict K V) (k : K) :
  get (fold_left (fun d kv => set d (fst kv) (snd kv)) l d) k =
  match last_write l k with
  | Some v => Some v
  | None => get d k
  end.
Proof.
  revert d; induction l as [|[k1 v1] l IH]; intros d; simpl.
  - reflexivity.
  - rewrite IH, get_set. destruct (last_write l k); [reflexivity|].
    now destruct (keq k1 k).
Qed.

(** [dict(pairs)[k]] is the value of the last pair with key [k]. *)
Lemma get_of_list (l : list (K * V)) (k : K) :
  get (of_list l) k = last_write l k.
Proof.
  unfold PyDict.of_list. rewrite get_fold_set. simpl.
  now destruct (last_write l k).
Qed.

End Per.

End DictFacts.

(* ================================================================== *)
(** * Facts about [==] on floats and on key tuples *)

Section FloatEq.

Ltac absurd_side :=
  split; [discriminate | intuition (try discriminate; try lia)].

Lemma SFeqb_same_number (a b : spec_float) :
  SFeqb a b = true <-> same_number a b.
Proof.
  unfold SFeqb, SFcompare, same_number.
  destruct a as [s1|s1| |s1 m1 e1], b as [s2|s2| |s2 m2 e2];
    try tauto; try absurd_side;
    try (destruct s1; absurd_side); try (destruct s2; absurd_side).
  - destruct s1, s2; split; try discriminate; auto.
  - destruct s1, s2; try absurd_side;
      (destruct (Z.compare_spec e1 e2) as [He|He|He]; try absurd_side;
       rewrite Pos.compare_cont_spec; simpl;
       destruct (Pos.compare_spec m1 m2) as [Hm|Hm|Hm]; simpl;
       try absurd_side; subst; tauto).
Qed.

Lemma same_number_sym (a b : spec_float) :
  same_number a b -> same_number b a.
Proof.
  destruct a, b; simpl; try tauto; try congruence.
  intros (-> & -> & ->). auto.
Qed.

Lemma same_number_trans (a b c : spec_float) :
  same_number a b -> same_number b c -> same_number a c.
Proof.
  destruct a, b, c; simpl; try tauto; try congruence.
  intros (-> & -> & ->) (-> & -> & ->). auto.
Qed.

Lemma float_eqb_sym (x y : float) :
  (x =? y)%float = true -> (y =? x)%float = true.
Proof.
  rewrite !eqb_spec, !SFeqb_same_number. apply same_number_sym.
Qed.

Lemma float_eqb_trans (x y z : float) :
  (x =? y)%float = true -> (y =? z)%float = true -> (x =? z)%float = true.
Proof.
  rewrite !eqb_spec, !SFeqb_same_number. apply same_number_trans.
Qed.

Lemma props_eqb_sym (a b : props) :
  props_eqb a b = true -> props_eqb b a = true.
Proof.
  destruct a as [[ra1 dec1] z1], b as [[ra2 dec2] z2]. unfold props_eqb.
  rewrite !andb_true_iff. intros [[H1 H2] H3].
  repeat split; now apply float_eqb_sym.
Qed.

Lemma props_eqb_trans (a b c : props) :
  props_eqb a b = true -> props_eqb b c = true -> props_eqb a c = true.
Proof.
  destruct a as [[ra1 dec1] z1], b as [[ra2 dec2] z2], c as [[ra3 dec3] z3].
  unfold props_eqb. rewrite !andb_true_iff.
  intros [[H1 H2] H3] [[H4 H5] H6].
  repeat split; eapply float_eqb_trans; eassumption.
Qed.

Lemma string_eqb_sym (a b : string) :
  String.eqb a b = true -> String.eqb b a = true.
Proof. rewrite !String.eqb_eq. congruence. Qed.

Lemma string_eqb_trans (a b c : string) :
  String.eqb a b = true -> String.eqb b c = true -> String.eqb a c = true.
Proof. rewrite !String.eqb_eq. congruence. Qed.

End FloatEq.

(* ================================================================== *)
(** * Facts about tilings by ranges *)

Section Chained.

Lemma chained_app (lo mid hi : nat) (l1 l2 : list slice) :
  chained lo l1 mid -> chained mid l2 hi -> chained lo (l1 ++ l2) hi.
Proof.
  revert lo; induction l1 as [|s l1 IH]; intros lo; simpl.
  - now intros ->.
  - intros (Hs & Hlt & Hrest) H2. repeat split; auto.
Qed.

Lemma chained_le (lo hi : nat) (l : list slice) :
  chained lo l hi -> lo <= hi.
Proof.
  revert lo; induction l as [|s l IH]; intros lo; simpl.
  - lia.
  - intros (Hs & Hlt & Hrest). apply IH in Hrest. lia.
Qed.

Lemma chained_bounds (lo hi : nat) (l : list slice) (s : slice) :
  chained lo l hi -> In s l ->
  lo <= start s /\ start s < stop s /\ stop s <= hi.
Proof.
  revert lo; induction l as [|s0 l IH]; intros lo; simpl; [tauto|].
  intros (Hs & Hlt & Hrest) [->|Hin].
  - apply chained_le in Hrest. lia.
  - destruct (IH _ Hrest Hin) as (H1 & H2 & H3). lia.
Qed.

(** Ranges in a tiling that share a row are the same range. *)
Lemma chained_covers_unique (lo hi : nat) (l : list slice) (s s' : slice)
      (j : nat) :
  chained lo l hi -> In s l -> In s' l -> covers s j -> covers s' j -> s = s'.
Proof.
  unfold covers.
  revert lo; induction l as [|s0 l IH]; intros lo; simpl; [tauto|].
  intros (Hs & Hlt & Hrest) [->|Hin] [->|Hin'] Hc Hc'.
  - reflexivity.
  - destruct (chained_bounds _ _ _ _ Hrest Hin') as (H1 & _). lia.
  - destruct (chained_bounds _ _ _ _ Hrest Hin) as (H1 & _). lia.
  - eapply IH; eauto.
Qed.

Lemma chained_NoDup (lo hi : nat) (l : list slice) :
  chained lo l hi -> NoDup l.
Proof.
  revert lo; induction l as [|s l IH]; intros lo; simpl.
  - constructor.
  - intros (Hs & Hlt & Hrest). constructor; [|eapply IH; eauto].
    intros Hin. destruct (chained_bounds _ _ _ _ Hrest Hin) as (H1 & _). lia.
Qed.

(** Every row of [lo, hi) lies in some range of a tiling. *)
Lemma chained_covers_all (lo hi : nat) (l : list slice) (j : nat) :
  chained lo l hi -> lo <= j < hi -> exists s, In s l /\ covers s j.
Proof.
  unfold covers.
  revert lo; induction l as [|s l IH]; intros lo; simpl.
  - lia.
  - intros (Hs & Hlt & Hrest) Hj.
    destruct (Nat.lt_ge_cases j (stop s)) as [Hlt'|Hge].
    + exists s. split; [now left | lia].
    + destruct (IH _ Hrest) as (s' & Hin & Hc); [lia|].
      exists s'. split; [now right | exact Hc].
Qed.

Lemma firstn_plus (A : Type) (n m : nat) (a : list A) :
  firstn (n + m) a = firstn n a ++ firstn m (skipn n a).
Proof.
  revert a; induction n as [|n IH]; intros a; simpl.
  - reflexivity.
  - destruct a as [|x a]; simpl.
    + now rewrite firstn_nil.
    + now rewrite IH.
Qed.

Lemma getslice_chain (A : Type) (a : list A) (x y z : nat) :
  x <= y -> y <= z ->
  firstn (y - x) (skipn x a) ++ firstn (z - y) (skipn y a) =
  firstn (z - x) (skipn x a).
Proof.
  intros Hxy Hyz.
  replace (z - x) with ((y - x) + (z - y)) by lia.
  rewrite firstn_plus. f_equal. rewrite skipn_skipn.
  now replace (y - x + x) with y by lia.
Qed.

(** The slices of a tiling of [lo, hi), taken in order, are the rows from
    [lo] to [hi]. *)
Lemma chained_concat (A : Type) (a : list A) (lo hi : nat) (l : list slice) :
  chained lo l hi ->
  concat (map (getslice a) l) = firstn (hi - lo) (skipn lo a).
Proof.
  revert lo; induction l as [|s l IH]; intros lo; simpl.
  - intros ->. now rewrite Nat.sub_diag.
  - intros (Hs & Hlt & Hrest). rewrite (IH _ Hrest). unfold getslice.
    subst lo. apply getslice_chain; [lia|].
    now apply chained_le in Hrest.
Qed.

End Chained.

(* ================================================================== *)
(** * The scan of the member catalog *)

Section Scan.

Variable d : PyDict.dict props string.
Variable full_member_cat : list member_row.

#[local] Abbreviation M := (List.length full_member_cat).

(** Inside the loop the look-ahead never leaves the array, and on the last
    row it answers [False]. *)
Lemma same_as_next_total (i : nat) (ra z : float) :
  i < M ->
  exists b, same_as_next full_member_cat i ra z = Ok b /\
            (i + 1 = M -> b = false).
Proof.
  intros Hi. unfold same_as_next.
  destruct (i <? M - 1) eqn:E.
  - apply Nat.ltb_lt in E.
    destruct (nth_error full_member_cat (i + 1)) as [next|] eqn:En.
    + eexists; split; [reflexivity | lia].
    + apply nth_error_None in En. lia.
  - exists false. split; reflexivity.
Qed.

Lemma resolve_ID_raises (ra dec z : float) (e : exn) :
  resolve_ID d ra dec z = Raise e -> e = KeyError.
Proof.
  unfold resolve_ID, PyDict.lookup.
  repeat match goal with
         | |- context [PyDict.get ?q ?dd ?k] => destruct (PyDict.get q dd k)
         end; try discriminate.
  now intros [= <-].
Qed.

(** The only exception an iteration raises is the [KeyError] of the
    identity map. *)
Lemma index_step_raises (i : nat) (st : loop_state) (e : exn) :
  i < M -> index_step d full_member_cat i st = Raise e -> e = KeyError.
Proof.
  intros Hi. unfold index_step.
  destruct (nth_error full_member_cat i) as [row|] eqn:En.
  - destruct (same_as_next_total i (c0 row) (c3 row) Hi) as (b & -> & _).
    simpl. destruct b; [discriminate|].
    destruct (resolve_ID d (c0 row) (c1 row) (c3 row)) as [ID|e'] eqn:Er;
      simpl; [discriminate|].
    intros [= <-]. eapply resolve_ID_raises; eauto.
  - apply nth_error_None in En. lia.
Qed.

Lemma scan_prefix_raises (n : nat) (st : loop_state) (e : exn) :
  n <= M ->
  for_range (index_step d full_member_cat) (seq 0 n) st = Raise e ->
  e = KeyError.
Proof.
  intros Hn Hrun.
  apply (for_range_raise _ (index_step d full_member_cat)
                         (fun e => e = KeyError) (seq 0 n) st e);
    [|exact Hrun].
  intros i s e' Hi. apply in_seq in Hi. apply index_step_raises. lia.
Qed.

(** What one iteration does to the state. *)
Lemma index_step_Ok (i : nat) (st st' : loop_state) :
  i < M ->
  index_step d full_member_cat i st = Ok st' ->
  exists row, nth_error full_member_cat i = Some row /\
    ((same_as_next full_member_cat i (c0 row) (c3 row) = Ok true /\
      i + 1 < M /\ st' = st)
     \/
     (same_as_next full_member_cat i (c0 row) (c3 row) = Ok false /\
      exists ID, resolve_ID d (c0 row) (c1 row) (c3 row) = Ok ID /\
        st' = {| list_ID_slice :=
                   list_ID_slice st ++ [(ID, mkslice (low_ind st) (i + 1))];
                 low_ind := i + 1; high_ind := i + 1 |})).
Proof.
  intros Hi. unfold index_step.
  destruct (nth_error full_member_cat i) as [row|] eqn:En; [|discriminate].
  destruct (same_as_next_total i (c0 row) (c3 row) Hi) as (b & Hb & Hlast).
  rewrite Hb. simpl. intros H. exists row. split; [reflexivity|].
  destruct b.
  - left. injection H as <-. split; [exact Hb | split; [|reflexivity]].
    destruct (Nat.eq_dec (i + 1) M) as [E|E]; [|lia].
    specialize (Hlast E). discriminate.
  - right. split; [exact Hb|].
    destruct (resolve_ID d (c0 row) (c1 row) (c3 row)) as [ID|e];
      simpl in H; [|discriminate].
    injection H as <-. exists ID. split; reflexivity.
Qed.

Lemma scan_inv_init : scan_inv M 0 init_state.
Proof.
  unfold scan_inv, init_state; simpl. repeat split; auto.
Qed.

Lemma scan_inv_step (i : nat) (st st' : loop_state) :
  0 <= i < 0 + M -> scan_inv M i st ->
  index_step d full_member_cat i st = Ok st' -> scan_inv M (i + 1) st'.
Proof.
  intros Hi (Hch & Hle & _) Hstep.
  assert (Hi' : i < M) by lia.
  destruct (index_step_Ok i st st' Hi' Hstep)
    as (row & Hrow & [(Hs & Hlt & ->)|(Hs & ID & Hr & ->)]).
  - unfold scan_inv. split; [exact Hch | split; lia].
  - unfold scan_inv; simpl. split; [|split; lia].
    rewrite map_app. simpl.
    eapply chained_app; [exact Hch|]. simpl. split; [reflexivity|].
    split; [lia | reflexivity].
Qed.

Lemma scan_inv_prefix (n : nat) (st : loop_state) :
  n <= M ->
  for_range (index_step d full_member_cat) (seq 0 n) init_state = Ok st ->
  scan_inv M n st.
Proof.
  intros Hn Hrun.
  change n with (0 + n).
  apply (for_range_seq_inv _ (index_step d full_member_cat)
                           (fun i s => scan_inv M i s) n 0 init_state st).
  - intros i s s' Hi. apply scan_inv_step. lia.
  - exact scan_inv_init.
  - exact Hrun.
Qed.

Lemma scan_split (i : nat) (st0 : loop_state) :
  i < M ->
  for_range (index_step d full_member_cat) (seq 0 M) st0 =
  (st <- for_range (index_step d full_member_cat) (seq 0 i) st0 ;;
   st' <- index_step d full_member_cat i st ;;
   for_range (index_step d full_member_cat) (seq (i + 1) (M - (i + 1))) st').
Proof.
  intros Hi.
  replace M with (i + Datatypes.S (M - (i + 1))) at 1 by lia.
  rewrite seq_app, for_range_app. simpl.
  now replace (Datatypes.S i) with (i + 1) by lia.
Qed.

(** The scan only appends. *)
Lemma scan_appends (lo len : nat) (st st' : loop_state) :
  lo + len <= M ->
  for_range (index_step d full_member_cat) (seq lo len) st = Ok st' ->
  exists ext, list_ID_slice st' = list_ID_slice st ++ ext.
Proof.
  intros Hle Hrun.
  apply (for_range_seq_inv _ (index_step d full_member_cat)
           (fun _ s => exists ext, list_ID_slice s = list_ID_slice st ++ ext)
           len lo st st'); [| |exact Hrun].
  - intros i s s' Hi (ext & Hext) Hstep.
    assert (Hi' : i < M) by lia.
    destruct (index_step_Ok i s s' Hi' Hstep)
      as (row & Hrow & [(_ & _ & ->)|(_ & ID & _ & ->)]).
    + now exists ext.
    + simpl. rewrite Hext, <- app_assoc. eexists; reflexivity.
  - exists []. now rewrite app_nil_r.
Qed.

(** The row that closes a run leaves its entry in the list, or stops the
    scan. *)
Lemma closing_row_step (i : nat) (row : member_row) (st : loop_state) :
  nth_error full_member_cat i = Some row ->
  same_as_next full_member_cat i (c0 row) (c3 row) = Ok false ->
  index_step d full_member_cat i st =
  (ID <- resolve_ID d (c0 row) (c1 row) (c3 row) ;;
   Ok {| list_ID_slice :=
           list_ID_slice st ++ [(ID, mkslice (low_ind st) (i + 1))];
         low_ind := i + 1; high_ind := i + 1 |}).
Proof.
  intros Hrow Hs. unfold index_step. rewrite Hrow, Hs. reflexivity.
Qed.

End Scan.

(* ================================================================== *)
(** * The ranges appended by the scan *)

(** The ranges of a finished scan tile the rows. *)
Lemma scan_ranges_chained
      (d : PyDict.dict props string) (full_member_cat : list member_row)
      (l : list (string * slice)) :
  build_list_ID_slice d full_member_cat = Ok l ->
  chained 0 (map snd l) (List.length full_member_cat).
Proof.
  unfold build_list_ID_slice, scan. intros H.
  destruct (for_range (index_step d full_member_cat)
                      (seq 0 (List.length full_member_cat)) init_state)
    as [st|e] eqn:Hrun; simpl in H; [|discriminate].
  injection H as <-.
  destruct (scan_inv_prefix d full_member_cat _ st (le_n _) Hrun)
    as (Hch & _ & Hend).
  now rewrite (Hend eq_refl) in Hch.
Qed.

(** C1. When the scan of a member catalog of M rows ends, the half-open
    ranges it appended tile [0, M): the first starts at 0, each one is
    non-empty and starts where the one before stopped, the last stops at M.
    Hence the slices taken in order give back the catalog, and every row
    lies in exactly one range. *)
Theorem appended_ranges_tile_catalog
        (d : PyDict.dict props string) (full_member_cat : list member_row)
        (l : list (string * slice)) :
  build_list_ID_slice d full_member_cat = Ok l ->
  chained 0 (map snd l) (List.length full_member_cat) /\
  concat (map (getslice full_member_cat) (map snd l)) = full_member_cat /\
  (forall j, j < List.length full_member_cat ->
     exists s, In s (map snd l) /\ covers s j /\
       forall s', In s' (map snd l) -> covers s' j -> s' = s).
Proof.
  intros H.
  pose proof (scan_ranges_chained d full_member_cat l H) as Hch.
  split; [exact Hch | split].
  - rewrite (chained_concat _ full_member_cat _ _ _ Hch).
    rewrite Nat.sub_0_r. simpl. apply firstn_all.
  - intros j Hj.
    destruct (chained_covers_all _ _ _ j Hch) as (s & Hin & Hc); [lia|].
    exists s. repeat split; try assumption; try apply Hc.
    intros s' Hin' Hc'.
    eapply chained_covers_unique; eauto.
Qed.

(** The two-cluster catalog: rows 0 to 3 and rows 4 and 5. *)
Lemma appended_ranges_tile_catalog_witness :
  build_list_ID_slice (dict_props_ID Examples.cl_cat) Examples.mem_cat
    = Ok [("C19a1sW00001"%string, mkslice 0 4);
          ("C19a1sW00002"%string, mkslice 4 6)] /\
  chained 0 [mkslice 0 4; mkslice 4 6] 6 /\
  concat (map (getslice Examples.mem_cat) [mkslice 0 4; mkslice 4 6])
    = Examples.mem_cat.
Proof.
  assert (H : build_list_ID_slice (dict_props_ID Examples.cl_cat)
                                  Examples.mem_cat
              = Ok [("C19a1sW00001"%string, mkslice 0 4);
                    ("C19a1sW00002"%string, mkslice 4 6)])
    by (vm_compute; reflexivity).
  destruct (appended_ranges_tile_catalog _ _ _ H) as (H1 & H2 & _).
  split; [exact H | split; [exact H1 | exact H2]].
Defined.

(* ================================================================== *)
(** * Resolution of a run's cluster ID *)

Lemma resolve_ID_first_hit (d : PyDict.dict props string) (ra dec z : float) :
  resolve_ID d ra dec z = first_hit d (candidate_keys ra dec z).
Proof.
  unfold resolve_ID, candidate_keys, PyDict.lookup; simpl.
  repeat match goal with
         | |- context [PyDict.get ?q ?dd ?k] => destruct (PyDict.get q dd k)
         end; reflexivity.
Qed.

Lemma first_hit_all_miss (d : PyDict.dict props string) (ks : list props) :
  (forall k, In k ks -> PyDict.get props_eqb d k = None) ->
  first_hit d ks = Raise KeyError.
Proof.
  induction ks as [|k ks IH]; simpl; intros H; [reflexivity|].
  rewrite (H k) by now left. apply IH. intros k' Hk'. apply H. now right.
Qed.


(* ================================================================== *)
(** * The extractor *)

Lemma bool_index_filter (A : Type) (f : A -> bool) (a : list A) :
  bool_index a (map f a) = filter f a.
Proof.
  induction a as [|x a IH]; simpl; [reflexivity|].
  destruct (f x); now rewrite IH.
Qed.

Lemma cut_mem_list_filter (lo hi : float) (rows : list member_row) :
  cut_mem_list lo hi rows = map gal_coords (filter (prob_within lo hi) rows).
Proof.
  unfold cut_mem_list, in_prob_range.
  now rewrite (bool_index_filter _ (prob_within lo hi)).
Qed.




(** C7. For an ID the index does not hold, the extractor raises the
    [KeyError] of the lookup and the file system is as it was: nothing is
    written. *)
Theorem unknown_ID_writes_nothing
        (idx : PyDict.dict string slice) (full_member_cat : list member_row)
        (ID : string) (fs : filesystem) :
  PyDict.get String.eqb idx ID = None ->
  save_mem_list idx full_member_cat ID fs = (Raise KeyError, fs).
Proof.
  intros Hget. unfold save_mem_list. now rewrite Hget.
Qed.

(** An ID of no cluster, on an empty file system. *)
Lemma unknown_ID_writes_nothing_witness :
  save_mem_list
    (PyDict.of_list String.eqb [("C19a1sW00001"%string, mkslice 0 4)])
    Examples.mem_cat "C19a1sW09999" [] = (Raise KeyError, []).
Proof.
  apply unknown_ID_writes_nothing. reflexivity.
Defined.

Lemma string_app_assoc (a b t : string) :
  (a ++ b ++ t)%string = ((a ++ b) ++ t)%string.
Proof.
  induction a as [|x a IH]; simpl; [reflexivity | now rewrite IH].
Qed.

Lemma mem_list_path_suffix (ID : string) :
  mem_list_path ID =
  (("Miscentered_Clusters_blank/" ++ ID ++ "/" ++ ID) ++ "_P=0.1to1.csv")%string.
Proof.
  unfold mem_list_path, str_prob_min, str_prob_max.
  change ("_P=" ++ "0.1" ++ "to" ++ "1" ++ ".csv")%string
    with "_P=0.1to1.csv"%string.
  rewrite <- !string_app_assoc. reflexivity.
Qed.

(** C9. The extractor has the cluster ID as its only input besides the
    index and the catalog.  Whenever it writes, the rows are cut with the
    bounds 0.1 (exclusive) and 1 (inclusive), the path is
    [Miscentered_Clusters_blank/ID/ID] followed by [_P=0.1to1.csv], the
    delimiter is a comma and the header is [ra, dec]. *)
Theorem extractor_bounds_are_fixed
        (idx : PyDict.dict string slice) (full_member_cat : list member_row)
        (ID : string) (member_slice : slice) (fs : filesystem) :
  PyDict.get String.eqb idx ID = Some member_slice ->
  save_mem_list idx full_member_cat ID fs =
  (Ok tt,
   np_savetxt
     (("Miscentered_Clusters_blank/" ++ ID ++ "/" ++ ID) ++ "_P=0.1to1.csv")
     (map gal_coords
          (filter (fun row => (0.1 <? c7 row)%float && (c7 row <=? 1)%float)
                  (getslice full_member_cat member_slice)))
     "," "ra, dec" fs).
Proof.
  intros Hget. unfold save_mem_list. rewrite Hget.
  rewrite mem_list_path_suffix, cut_mem_list_filter. reflexivity.
Qed.

(** Cluster B of the two-cluster catalog: the path and the one member with
    a probability above 0.1. *)
Lemma extractor_bounds_are_fixed_witness :
  save_mem_list
    (PyDict.of_list String.eqb
       [("C19a1sW00001"%string, mkslice 0 4);
        ("C19a1sW00002"%string, mkslice 4 6)])
    Examples.mem_cat "C19a1sW00002" [] =
  (Ok tt,
   [("Miscentered_Clusters_blank/C19a1sW00002/C19a1sW00002_P=0.1to1.csv"%string,
     {| art_header := "ra, dec"; art_delimiter := ",";
        art_X := [(20.26, 2.51)]%float |})]).
Proof.
  exact (extractor_bounds_are_fixed
           (PyDict.of_list String.eqb
              [("C19a1sW00001"%string, mkslice 0 4);
               ("C19a1sW00002"%string, mkslice 4 6)])
           Examples.mem_cat "C19a1sW00002" (mkslice 4 6) [] eq_refl).
Defined.

(* ================================================================== *)
(** * The run-boundary test *)

Section Boundary.

Variables cat cat' : list member_row.
Hypothesis same_cols : map RA_and_z cat' = map RA_and_z cat.

Lemma same_cols_length : List.length cat' = List.length cat.
Proof.
  rewrite <- (length_map RA_and_z cat'), same_cols. apply length_map.
Qed.

Lemma same_cols_nth (i : nat) :
  option_map RA_and_z (nth_error cat' i) = option_map RA_and_z (nth_error cat i).
Proof.
  rewrite <- !nth_error_map. now rewrite same_cols.
Qed.

(** The look-ahead reads columns 0 and 3 only. *)
Lemma same_as_next_cols (i : nat) (ra z : float) :
  same_as_next cat' i ra z = same_as_next cat i ra z.
Proof.
  unfold same_as_next. rewrite same_cols_length.
  destruct (i <? List.length cat - 1); [|reflexivity].
  pose proof (same_cols_nth (i + 1)) as H.
  destruct (nth_error cat' (i + 1)) as [n'|], (nth_error cat (i + 1)) as [n|];
    simpl in H; try discriminate; [|reflexivity].
  unfold RA_and_z in H. injection H as -> ->. reflexivity.
Qed.

(** Two scans over catalogs with the same columns 0 and 3 append the same
    ranges, whatever the identity maps answer. *)
Lemma scans_agree_on_ranges (d d' : PyDict.dict props string)
      (range : list nat) (st1 st2 st1' st2' : loop_state) :
  (forall i, In i range -> i < List.length cat) ->
  map snd (list_ID_slice st1) = map snd (list_ID_slice st2) ->
  low_ind st1 = low_ind st2 ->
  for_range (index_step d cat) range st1 = Ok st1' ->
  for_range (index_step d' cat') range st2 = Ok st2' ->
  map snd (list_ID_slice st1') = map snd (list_ID_slice st2') /\
  low_ind st1' = low_ind st2'.
Proof.
  revert st1 st2; induction range as [|i range IH];
    intros st1 st2 Hin Hl Hlow H1 H2; simpl in H1, H2.
  - injection H1 as <-. injection H2 as <-. now split.
  - destruct (index_step d cat i st1) as [s1|] eqn:E1; simpl in H1;
      [|discriminate].
    destruct (index_step d' cat' i st2) as [s2|] eqn:E2; simpl in H2;
      [|discriminate].
    assert (Hi : i < List.length cat) by (apply Hin; now left).
    assert (Hi' : i < List.length cat') by (now rewrite same_cols_length).
    apply (IH s1 s2); try assumption; [intros j Hj; apply Hin; now right | |].
    all: destruct (index_step_Ok d cat i st1 s1 Hi E1)
        as (r1 & Hr1 & [(Hs1 & _ & ->)|(Hs1 & ID1 & _ & ->)]);
      destruct (index_step_Ok d' cat' i st2 s2 Hi' E2)
        as (r2 & Hr2 & [(Hs2 & _ & ->)|(Hs2 & ID2 & _ & ->)]);
      pose proof (same_cols_nth i) as Hn; rewrite Hr1, Hr2 in Hn;
      simpl in Hn; unfold RA_and_z in Hn; injection Hn as Hra Hz;
      rewrite same_as_next_cols, Hra, Hz in Hs2;
      try congruence; simpl; try reflexivity.
    rewrite !map_app, Hl, Hlow. reflexivity.
Qed.

End Boundary.


(* ================================================================== *)
(** * Colliding keys in the identity map *)

Lemma dict_props_ID_get (HSC_cl_cat : list cluster_row) (k : props) :
  PyDict.get props_eqb (dict_props_ID HSC_cl_cat) k =
  PyDict.last_write props_eqb (list_props_ID HSC_cl_cat) k.
Proof.
  unfold dict_props_ID.
  apply (get_of_list _ _ props_eqb props_eqb_sym props_eqb_trans).
Qed.

Lemma list_props_ID_cons (row : cluster_row) (rest : list cluster_row) :
  list_props_ID (row :: rest) = (cluster_key row, cl_ID row) :: list_props_ID rest.
Proof. reflexivity. Qed.

Lemma list_props_ID_app (a b : list cluster_row) :
  list_props_ID (a ++ b) = list_props_ID a ++ list_props_ID b.
Proof. unfold list_props_ID. apply map_app. Qed.

(** C6. When two rows of the cluster catalog give the same key, the
    identity map answers that key with the ID of the last row that gives it:
    building the map is a total function, and the later row takes the place
    of the earlier one.  In general the map answers a key with the ID of the
    last row whose key equals it. *)
Theorem identity_map_last_write_wins
        (before between after : list cluster_row) (r1 r2 : cluster_row) :
  props_eqb (cluster_key r1) (cluster_key r2) = true ->
  (forall r, In r after -> props_eqb (cluster_key r) (cluster_key r2) = false) ->
  let HSC_cl_cat := before ++ r1 :: between ++ r2 :: after in
  PyDict.get props_eqb (dict_props_ID HSC_cl_cat) (cluster_key r2)
    = Some (cl_ID r2) /\
  PyDict.get props_eqb (dict_props_ID HSC_cl_cat) (cluster_key r1)
    = Some (cl_ID r2) /\
  (forall k, PyDict.get props_eqb (dict_props_ID HSC_cl_cat) k =
             PyDict.last_write props_eqb (list_props_ID HSC_cl_cat) k).
Proof.
  intros H12 Hafter HSC_cl_cat.
  assert (H22 : props_eqb (cluster_key r2) (cluster_key r2) = true)
    by (eapply props_eqb_trans; [apply props_eqb_sym|]; eassumption).
  assert (Hk2 : PyDict.last_write props_eqb (list_props_ID HSC_cl_cat)
                                  (cluster_key r2) = Some (cl_ID r2)).
  { unfold HSC_cl_cat.
    rewrite list_props_ID_app, last_write_app, list_props_ID_cons.
    rewrite list_props_ID_app, list_props_ID_cons.
    cbn [PyDict.last_write]. rewrite last_write_app.
    cbn [PyDict.last_write].
    rewrite (last_write_none _ _ props_eqb (list_props_ID after)).
    - now rewrite H22.
    - intros kv Hkv. unfold list_props_ID in Hkv.
      apply in_map_iff in Hkv. destruct Hkv as (r & <- & Hr). simpl.
      now apply Hafter. }
  split; [|split].
  - now rewrite dict_props_ID_get.
  - rewrite dict_props_ID_get.
    assert (G : forall l : list (props * string),
               PyDict.last_write props_eqb l (cluster_key r1) =
               PyDict.last_write props_eqb l (cluster_key r2)).
    { induction l as [|[k v] l IH]; simpl; [reflexivity|].
      rewrite IH.
      now rewrite (keq_congr_r _ props_eqb props_eqb_sym props_eqb_trans
                               k _ _ H12). }
    now rewrite G.
  - intros k. apply dict_props_ID_get.
Qed.

(** Rows 1 and 3 of the catalog collide: the key answers with the ID of
    row 3. *)
Lemma identity_map_last_write_wins_witness :
  PyDict.get props_eqb (dict_props_ID Examples.cl_cat_collision)
             (10.5, -1.25, 0.3)%float = Some "C19a1sW00003"%string.
Proof.
  refine (proj1 (identity_map_last_write_wins
                   [] [Examples.cl_B] [] Examples.cl_A Examples.cl_A' _ _)).
  - vm_compute. reflexivity.
  - intros r [].
Defined.

(* ================================================================== *)
(** * Runs that resolve to the same ID *)

Lemma NoDup_snd_unique (A B : Type) (l : list (A * B)) (a a' : A) (b : B) :
  NoDup (map snd l) -> In (a, b) l -> In (a', b) l -> a = a'.
Proof.
  induction l as [|[x y] l IH]; simpl; [tauto|].
  intros Hnd [E|Hin] [E'|Hin']; inversion Hnd as [|? ? Hnot Hnd']; subst.
  - congruence.
  - injection E as -> ->. exfalso. apply Hnot.
    change b with (snd (a', b)). now apply in_map.
  - injection E' as -> ->. exfalso. apply Hnot.
    change b with (snd (a, b)). now apply in_map.
  - now apply IH.
Qed.

Lemma index_get (l : list (string * slice)) (ID : string) :
  PyDict.get String.eqb (PyDict.of_list String.eqb l) ID =
  PyDict.last_write String.eqb l ID.
Proof.
  apply (get_of_list _ _ String.eqb string_eqb_sym string_eqb_trans).
Qed.

(** C10. When two runs of the scan resolve to the same ID, the finished
    index answers that ID with the range of the later run: it answers every
    ID with the last range appended under it.  The rows of the earlier run
    are then in no range of the index, although they are rows of the
    catalog. *)
Theorem index_keeps_later_run
        (d : PyDict.dict props string) (full_member_cat : list member_row)
        (l1 l2 l3 : list (string * slice)) (ID : string) (s1 s2 : slice) :
  build_list_ID_slice d full_member_cat
    = Ok (l1 ++ (ID, s1) :: l2 ++ (ID, s2) :: l3) ->
  ~ In ID (map fst l3) ->
  exists idx,
    dict_ID_slice d full_member_cat = Ok idx /\
    PyDict.get String.eqb idx ID = Some s2 /\
    (forall ID', PyDict.get String.eqb idx ID' =
                 PyDict.last_write String.eqb
                   (l1 ++ (ID, s1) :: l2 ++ (ID, s2) :: l3) ID') /\
    (exists j, covers s1 j /\ j < List.length full_member_cat) /\
    (forall j, covers s1 j ->
       forall ID' s', PyDict.get String.eqb idx ID' = Some s' ->
                      ~ covers s' j).
Proof.
  intros Hbuild Hlast.
  set (l := l1 ++ (ID, s1) :: l2 ++ (ID, s2) :: l3) in *.
  pose proof (scan_ranges_chained d full_member_cat l Hbuild) as Hch.
  assert (Hin1 : In (ID, s1) l)
    by (unfold l; apply in_or_app; right; now left).
  assert (Hin2 : In (ID, s2) l)
    by (unfold l; apply in_or_app; right; right; apply in_or_app; right;
        now left).
  assert (Hs1 : In s1 (map snd l))
    by (change s1 with (snd (ID, s1)); now apply in_map).
  assert (Hnd : NoDup (map snd l)) by (eapply chained_NoDup; eauto).
  assert (Hget : PyDict.last_write String.eqb l ID = Some s2).
  { unfold l. rewrite last_write_app. cbn [PyDict.last_write].
    rewrite last_write_app. cbn [PyDict.last_write].
    rewrite (last_write_none _ _ String.eqb l3).
    - now rewrite String.eqb_refl.
    - intros [k v] Hkv. simpl. apply String.eqb_neq. intros ->.
      apply Hlast. change ID with (fst (ID, v)). now apply in_map. }
  assert (Hne : s1 <> s2).
  { intros ->. unfold l in Hnd. rewrite map_app in Hnd. simpl in Hnd.
    apply NoDup_remove_2 in Hnd. apply Hnd.
    apply in_or_app. right. rewrite map_app. apply in_or_app. right.
    now left. }
  exists (PyDict.of_list String.eqb l).
  split; [unfold dict_ID_slice; now rewrite Hbuild|].
  split; [now rewrite index_get|].
  split; [intros ID'; apply index_get|].
  split.
  - destruct (chained_bounds _ _ _ _ Hch Hs1) as (_ & Hlt & Hle).
    exists (start s1). unfold covers. lia.
  - intros j Hj ID' s' Hidx Hj'.
    rewrite index_get in Hidx.
    pose proof Hidx as Hidx'.
    apply last_write_In in Hidx. destruct Hidx as (k' & Hin' & Hk').
    apply String.eqb_eq in Hk'. subst k'.
    assert (Hs' : In s' (map snd l))
      by (change s' with (snd (ID', s')); now apply in_map).
    assert (s1 = s')
      by (exact (chained_covers_unique _ _ _ s1 s' j Hch Hs1 Hs' Hj Hj')).
    subst s'.
    assert (ID = ID')
      by (exact (NoDup_snd_unique _ _ l ID ID' s1 Hnd Hin1 Hin')).
    subst ID'. congruence.
Qed.

(** The rows of A split by a row of B: the index answers A with rows 3 to
    3, and row 0 is in no range of the index. *)
Lemma index_keeps_later_run_witness :
  exists idx,
    dict_ID_slice (dict_props_ID Examples.cl_cat) Examples.mem_cat_split
      = Ok idx /\
    PyDict.get String.eqb idx "C19a1sW00001"%string = Some (mkslice 3 4) /\
    (forall ID' s', PyDict.get String.eqb idx ID' = Some s' ->
                    ~ covers s' 0).
Proof.
  destruct (index_keeps_later_run
              (dict_props_ID Examples.cl_cat) Examples.mem_cat_split
              [] [("C19a1sW00002"%string, mkslice 2 3)] []
              "C19a1sW00001"%string (mkslice 0 2) (mkslice 3 4))
    as (idx & H1 & H2 & _ & _ & H5).
  - vm_compute. reflexivity.
  - intros [].
  - exists idx. split; [exact H1 | split; [exact H2|]].
    apply H5. unfold covers; simpl. lia.
Defined.

(* ================================================================== *)
(** * The number of index entries *)

Section DictKeys.

Variables K V : Type.
Variable keq : K -> K -> bool.
Hypothesis keq_eq : forall a b, keq a b = true <-> a = b.

#[local] Abbreviation assign_all :=
  (fold_left (fun (d : PyDict.dict K V) kv => PyDict.set keq d (fst kv) (snd kv))).

Lemma keys_set_In (d : PyDict.dict K V) (k : K) (v : V) :
  In k (PyDict.keys (PyDict.set keq d k v)).
Proof.
  induction d as [|[k1 v1] d IH]; simpl.
  - now left.
  - destruct (keq k1 k) eqn:E; simpl.
    + left. now apply keq_eq.
    + now right.
Qed.

Lemma keys_set_NoDup (d : PyDict.dict K V) (k : K) (v : V) :
  NoDup (PyDict.keys d) -> NoDup (PyDict.keys (PyDict.set keq d k v)).
Proof.
  induction d as [|[k1 v1] d IH]; simpl; intros Hnd.
  - constructor; [intros [] | constructor].
  - inversion Hnd as [|? ? Hnot Hnd']; subst.
    destruct (keq k1 k) eqn:E; simpl.
    + now constructor.
    + constructor; [|now apply IH].
      intros Hin. apply keys_set_incl in Hin. destruct Hin as [<-|Hin].
      * assert (keq k k = true) by now apply keq_eq. congruence.
      * contradiction.
Qed.

Lemma keys_assign_all (l : list (K * V)) (d : PyDict.dict K V) :
  NoDup (PyDict.keys d) ->
  NoDup (PyDict.keys (assign_all l d)) /\
  incl (PyDict.keys (assign_all l d)) (PyDict.keys d ++ map fst l) /\
  incl (PyDict.keys d ++ map fst l) (PyDict.keys (assign_all l d)).
Proof.
  revert d; induction l as [|[k v] l IH]; intros d Hnd; simpl.
  - rewrite app_nil_r. repeat split; auto using incl_refl.
  - destruct (IH (PyDict.set keq d k v) (keys_set_NoDup d k v Hnd))
      as (H1 & H2 & H3).
    split; [exact H1 | split].
    + intros x Hx. apply H2 in Hx. apply in_app_or in Hx.
      destruct Hx as [Hx|Hx].
      * apply keys_set_incl in Hx. destruct Hx as [<-|Hx];
          apply in_or_app; [right; now left | now left].
      * apply in_or_app. right. now right.
    + intros x Hx. apply H3. apply in_app_or in Hx.
      destruct Hx as [Hx|[<-|Hx]]; apply in_or_app.
      * left. now apply keys_set_keep.
      * left. apply keys_set_In.
      * now right.
Qed.

(** The keys of [dict(pairs)] are the keys of the pairs, each once. *)
Lemma keys_of_list (l : list (K * V)) :
  NoDup (PyDict.keys (PyDict.of_list keq l)) /\
  (forall k, In k (PyDict.keys (PyDict.of_list keq l)) <-> In k (map fst l)).
Proof.
  destruct (keys_assign_all l [] (NoDup_nil K)) as (H1 & H2 & H3).
  split; [exact H1|]. intros k. split; [apply H2 | apply H3].
Qed.

End DictKeys.

Section Entries.

Variable d : PyDict.dict props string.
Variable full_member_cat : list member_row.

Lemma resolve_ID_value (ra dec z : float) (ID : string) :
  resolve_ID d ra dec z = Ok ID -> In ID (PyDict.values d).
Proof.
  unfold resolve_ID, PyDict.lookup.
  repeat match goal with
         | |- context [PyDict.get ?q ?dd ?k] =>
             let E := fresh "E" in destruct (PyDict.get q dd k) eqn:E
         end; intros [= <-]; eapply get_value; eauto.
Qed.

(** Every ID the scan appends is an ID of the identity map. *)
Lemma scan_IDs_are_values (l : list (string * slice)) :
  build_list_ID_slice d full_member_cat = Ok l ->
  incl (map fst l) (PyDict.values d).
Proof.
  unfold build_list_ID_slice, scan. intros H.
  destruct (for_range (index_step d full_member_cat)
                      (seq 0 (List.length full_member_cat)) init_state)
    as [st|e] eqn:Hrun; simpl in H; [|discriminate].
  injection H as <-.
  apply (for_range_seq_inv _ (index_step d full_member_cat)
           (fun _ s => incl (map fst (list_ID_slice s)) (PyDict.values d))
           (List.length full_member_cat) 0 init_state st); [| |exact Hrun].
  - intros i s s' Hi Hinv Hstep.
    assert (Hi' : i < List.length full_member_cat) by lia.
    destruct (index_step_Ok d full_member_cat i s s' Hi' Hstep)
      as (row & Hrow & [(_ & _ & ->)|(_ & ID & Hr & ->)]); [exact Hinv|].
    simpl. rewrite map_app. apply incl_app; [exact Hinv|].
    intros x [<-|[]]. eapply resolve_ID_value; eauto.
  - intros x [].
Qed.

End Entries.

Section DictSize.

Variables K V : Type.
Variable keq : K -> K -> bool.
Hypothesis keq_trans :
  forall a b c, keq a b = true -> keq b c = true -> keq a c = true.

Lemma keys_set_eq (d : PyDict.dict K V) (k : K) (v : V) :
  PyDict.keys (PyDict.set keq d k v) =
  if PyDict.mem keq d k then PyDict.keys d else PyDict.keys d ++ [k].
Proof.
  unfold PyDict.mem.
  induction d as [|[k1 v1] d IH]; simpl; [reflexivity|].
  destruct (keq k1 k); simpl; [reflexivity|].
  rewrite IH. now destruct (existsb (fun k' => keq k' k) (PyDict.keys d)).
Qed.

Lemma len_keys (d : PyDict.dict K V) :
  PyDict.len d = List.length (PyDict.keys d).
Proof. unfold PyDict.len, PyDict.keys. now rewrite length_map. Qed.

Lemma existsb_keq_trans (ks : list K) (k x : K) :
  existsb (fun k' => keq k' k) ks = true -> keq k x = true ->
  existsb (fun k' => keq k' x) ks = true.
Proof.
  intros H Hkx. apply existsb_exists in H. destruct H as (k' & Hin & Hk').
  apply existsb_exists. exists k'. split; [exact Hin|].
  eapply keq_trans; eauto.
Qed.

Lemma len_assign_all (l : list (K * V)) (d : PyDict.dict K V) (seen : list K) :
  (forall x, existsb (fun k' => keq k' x) (PyDict.keys d) =
             existsb (fun k' => keq k' x) seen) ->
  PyDict.len
    (fold_left (fun d kv => PyDict.set keq d (fst kv) (snd kv)) l d) =
  PyDict.len d + PyDict.distinct_from keq seen (map fst l).
Proof.
  revert d seen; induction l as [|[k v] l IH]; intros d seen Hseen; simpl.
  - lia.
  - rewrite (IH (PyDict.set keq d k v) (k :: seen)).
    + rewrite !len_keys, keys_set_eq. unfold PyDict.mem.
      rewrite <- (Hseen k).
      destruct (existsb (fun k' => keq k' k) (PyDict.keys d)); simpl.
      * lia.
      * rewrite length_app. simpl. lia.
    + intros x. rewrite keys_set_eq. unfold PyDict.mem. simpl.
      destruct (existsb (fun k' => keq k' k) (PyDict.keys d)) eqn:E.
      * rewrite <- (Hseen x). destruct (keq k x) eqn:Ex; [|reflexivity].
        simpl. eapply existsb_keq_trans; eauto.
      * rewrite existsb_app. simpl. rewrite orb_false_r, (Hseen x).
        apply orb_comm.
Qed.

(** [len(dict(pairs))] is the number of distinct keys of the pairs. *)
Lemma len_of_list (l : list (K * V)) :
  PyDict.len (PyDict.of_list keq l) =
  PyDict.distinct_from keq [] (map fst l).
Proof.
  unfold PyDict.of_list. now rewrite (len_assign_all l [] []).
Qed.

End DictSize.

Lemma len_dict_props_ID (HSC_cl_cat : list cluster_row) :
  PyDict.len (dict_props_ID HSC_cl_cat) = distinct_keys HSC_cl_cat.
Proof.
  unfold dict_props_ID, distinct_keys.
  rewrite (len_of_list _ _ props_eqb props_eqb_trans).
  unfold list_props_ID. rewrite map_map. reflexivity.
Qed.

Lemma string_eqb_eq (a b : string) : String.eqb a b = true <-> a = b.
Proof. apply String.eqb_eq. Qed.

(** The index holds one entry per ID appended by the scan. *)
Lemma index_keys (l : list (string * slice)) :
  NoDup (PyDict.keys (PyDict.of_list String.eqb l)) /\
  (forall ID, In ID (PyDict.keys (PyDict.of_list String.eqb l)) <->
              In ID (map fst l)).
Proof. apply (keys_of_list _ _ String.eqb string_eqb_eq). Qed.

(** The claim of C4 fails: for a member catalog that holds rows of one of
    the two clusters of the cluster catalog, the index has one entry and the
    cluster catalog has two distinct keys. *)
Lemma index_entries_counterexample :
  dict_ID_slice (dict_props_ID Examples.cl_cat) Examples.mem_cat_A_only
    = Ok [("C19a1sW00001"%string, mkslice 0 2)] /\
  PyDict.len [("C19a1sW00001"%string, mkslice 0 2)] = 1 /\
  distinct_keys Examples.cl_cat = 2 /\
  ~ (forall HSC_cl_cat full_member_cat idx,
       dict_ID_slice (dict_props_ID HSC_cl_cat) full_member_cat = Ok idx ->
       PyDict.len idx = distinct_keys HSC_cl_cat).
Proof.
  assert (H : dict_ID_slice (dict_props_ID Examples.cl_cat)
                            Examples.mem_cat_A_only
              = Ok [("C19a1sW00001"%string, mkslice 0 2)])
    by (vm_compute; reflexivity).
  split; [exact H | split; [reflexivity | split; [reflexivity|]]].
  intros Hall. specialize (Hall _ _ _ H). discriminate Hall.
Qed.

(** C4, amended. The index of a finished scan has one entry per distinct
    ID among the appended runs.  That number is at most the number of
    distinct keys of the cluster catalog, which is the size of the identity
    map; the two are equal exactly when the IDs of the identity map are
    pairwise distinct and each of them is the ID of some run. *)
Theorem index_entries_bounded
        (HSC_cl_cat : list cluster_row) (full_member_cat : list member_row)
        (l : list (string * slice)) :
  build_list_ID_slice (dict_props_ID HSC_cl_cat) full_member_cat = Ok l ->
  exists idx,
    dict_ID_slice (dict_props_ID HSC_cl_cat) full_member_cat = Ok idx /\
    PyDict.len (dict_props_ID HSC_cl_cat) = distinct_keys HSC_cl_cat /\
    PyDict.len idx = List.length (nodup string_dec (map fst l)) /\
    PyDict.len idx <= distinct_keys HSC_cl_cat /\
    (PyDict.len idx = distinct_keys HSC_cl_cat <->
     NoDup (PyDict.values (dict_props_ID HSC_cl_cat)) /\
     incl (PyDict.values (dict_props_ID HSC_cl_cat)) (map fst l)).
Proof.
  intros Hbuild.
  set (d := dict_props_ID HSC_cl_cat) in *.
  exists (PyDict.of_list String.eqb l).
  destruct (index_keys l) as (Hnd & Hkeys).
  pose proof (scan_IDs_are_values d full_member_cat l Hbuild) as Hvals.
  assert (Hsub : incl (PyDict.keys (PyDict.of_list String.eqb l))
                      (PyDict.values d))
    by (intros x Hx; apply Hvals, Hkeys, Hx).
  assert (Hlen : List.length (PyDict.values d) = distinct_keys HSC_cl_cat).
  { rewrite <- len_dict_props_ID. unfold PyDict.values, PyDict.len.
    apply length_map. }
  split; [unfold dict_ID_slice; now rewrite Hbuild|].
  split; [apply len_dict_props_ID|].
  rewrite len_keys, <- Hlen.
  split; [|split].
  - apply Nat.le_antisymm; apply NoDup_incl_length;
      try exact Hnd; try apply NoDup_nodup.
    + intros x Hx. apply nodup_In, Hkeys, Hx.
    + intros x Hx. apply Hkeys. eapply nodup_In, Hx.
  - now apply NoDup_incl_length.
  - split.
    + intros Heq. split.
      * apply (@NoDup_incl_NoDup _ _ (PyDict.values d) Hnd);
          [lia | exact Hsub].
      * intros x Hx. apply Hkeys.
        apply (@NoDup_length_incl _ _ (PyDict.values d) Hnd);
          [lia | exact Hsub | exact Hx].
    + intros (Hnd' & Hincl). apply Nat.le_antisymm.
      * now apply NoDup_incl_length.
      * apply NoDup_incl_length; [exact Hnd'|].
        intros x Hx. apply Hkeys, Hincl, Hx.
Qed.

(** The two-cluster catalog with members of both clusters. *)
Lemma index_entries_bounded_witness :
  exists idx,
    dict_ID_slice (dict_props_ID Examples.cl_cat) Examples.mem_cat = Ok idx /\
    PyDict.len idx <= distinct_keys Examples.cl_cat.
Proof.
  destruct (index_entries_bounded Examples.cl_cat Examples.mem_cat
              [("C19a1sW00001"%string, mkslice 0 4);
               ("C19a1sW00002"%string, mkslice 4 6)])
    as (idx & H1 & _ & _ & H4 & _).
  - vm_compute. reflexivity.
  - exists idx. split; [exact H1 | exact H4].
Defined.

(* ================================================================== *)
(** * The line-of-sight distance *)

(** [np.rint] on a few values: ties go to the even neighbour, the sign is
    kept, integers and NaN are left alone. *)
Lemma rint_values :
  rint 0.5 = 0%float /\ rint 1.5 = 2%float /\ rint 2.5 = 2%float /\
  rint (-0.5) = (-0)%float /\ rint (-2.5) = (-2)%float /\
  rint 65.887 = 66%float /\ rint 300.4 = 300%float /\
  rint 9007199254740992 = 9007199254740992%float /\
  is_nan (rint nan) = true.
Proof. vm_compute. repeat split; reflexivity. Qed.



(* ================================================================== *)
(** * Every appended range is a run, and its ID is that of its last row *)

Section RunStructure.

Variable d : PyDict.dict props string.
Variable full_member_cat : list member_row.

#[local] Abbreviation rows := (List.length full_member_cat).

#[local] Abbreviation entry_ok := (Runs.entry_ok d full_member_cat).
#[local] Abbreviation run_inv := (run_inv d full_member_cat).

Lemma run_inv_step (i : nat) (st st' : loop_state) :
  i < rows -> run_inv i st ->
  index_step d full_member_cat i st = Ok st' -> run_inv (i + 1) st'.
Proof.
  intros Hi (Hscan & Hent & Hopen) Hstep.
  assert (Hscan' : scan_inv rows (i + 1) st')
    by (apply (scan_inv_step d full_member_cat i st st'); [lia | assumption..]).
  destruct Hscan as (_ & Hlow & _).
  destruct (index_step_Ok d full_member_cat i st st' Hi Hstep)
    as (row & Hrow & [(Hs & _ & ->)|(Hs & ID & Hr & ->)]).
  - split; [exact Hscan' | split].
    + intros e He. destruct (Hent e He) as (H1 & H2 & H3 & H4).
      repeat split; try assumption. lia.
    + intros j Hj. destruct (Nat.eq_dec j i) as [->|Hne].
      * exists row. now split.
      * apply Hopen. lia.
  - split; [exact Hscan' | split]; simpl.
    + intros e He. apply in_app_or in He. destruct He as [He|[<-|[]]].
      * destruct (Hent e He) as (H1 & H2 & H3 & H4).
        repeat split; try assumption. lia.
      * unfold entry_ok; simpl. split; [lia | split; [lia | split]].
        -- intros j Hj1 Hj2. apply Hopen. lia.
        -- exists row. replace (i + 1 - 1) with i by lia.
           split; [now split | exact Hr].
    + intros j Hj. lia.
Qed.

Lemma run_inv_end (l : list (string * slice)) :
  build_list_ID_slice d full_member_cat = Ok l ->
  forall e, In e l -> entry_ok rows e.
Proof.
  unfold build_list_ID_slice, scan. intros H.
  destruct (for_range (index_step d full_member_cat) (seq 0 rows) init_state)
    as [st|e] eqn:Hrun; simpl in H; [|discriminate].
  injection H as <-.
  assert (Hinv : run_inv (0 + rows) st).
  { apply (for_range_seq_inv _ (index_step d full_member_cat) run_inv
                             rows 0 init_state st); [| |exact Hrun].
    - intros i s s' Hi. apply run_inv_step. lia.
    - split; [apply scan_inv_init | split].
      + intros e [].
      + intros i Hi. simpl in Hi. lia. }
  apply Hinv.
Qed.

Lemma run_bounds_and_links
      (l : list (string * slice)) (ID : string) (s : slice) :
  build_list_ID_slice d full_member_cat = Ok l ->
  In (ID, s) l ->
  start s < stop s /\ stop s <= rows /\
  (forall i, start s <= i -> i + 1 < stop s -> linked full_member_cat i).
Proof.
  intros Hbuild Hin.
  destruct (run_inv_end l Hbuild (ID, s) Hin) as (H1 & H2 & H3 & _).
  simpl in *. repeat split; assumption.
Qed.

(** X1. Every entry the scan appended is a run of the catalog: its range
    is not empty and lies inside the catalog, each of its rows but the last
    passes the [continue] test with the row after it, and its last row
    fails that test. *)
Theorem appended_range_is_a_run
        (l : list (string * slice)) (ID : string) (s : slice) :
  build_list_ID_slice d full_member_cat = Ok l ->
  In (ID, s) l ->
  start s < stop s /\ stop s <= rows /\
  (forall i, start s <= i -> i + 1 < stop s -> linked full_member_cat i) /\
  (exists row, closing full_member_cat (stop s - 1) row).
Proof.
  intros Hbuild Hin.
  destruct (run_inv_end l Hbuild (ID, s) Hin) as (H1 & H2 & H3 & row & H4 & _).
  simpl in *. repeat split; try assumption. now exists row.
Qed.

(** X2. The ID of every appended entry is the one [resolve_ID] gives for
    the last row of its range, read with that row's RA, declination and
    redshift; it is an ID of the identity map. *)
Theorem appended_ID_is_of_last_row
        (l : list (string * slice)) (ID : string) (s : slice) :
  build_list_ID_slice d full_member_cat = Ok l ->
  In (ID, s) l ->
  exists row,
    nth_error full_member_cat (stop s - 1) = Some row /\
    resolve_ID d (c0 row) (c1 row) (c3 row) = Ok ID /\
    In ID (PyDict.values d).
Proof.
  intros Hbuild Hin.
  destruct (run_inv_end l Hbuild (ID, s) Hin)
    as (_ & _ & _ & row & (Hrow & _) & Hr).
  simpl in *. exists row. repeat split; try assumption.
  eapply resolve_ID_value; eauto.
Qed.

End RunStructure.

Lemma same_as_next_true (cat : list member_row) (i : nat) (ra z : float) :
  same_as_next cat i ra z = Ok true ->
  exists next, nth_error cat (i + 1) = Some next /\
               (ra =? c0 next)%float = true /\ (z =? c3 next)%float = true.
Proof.
  unfold same_as_next. destruct (i <? List.length cat - 1); [|discriminate].
  destruct (nth_error cat (i + 1)) as [next|]; [|discriminate].
  intros [= H]. apply andb_true_iff in H. exists next. tauto.
Qed.

Lemma linked_chain (cat : list member_row) (a last : nat) :
  (forall i, a <= i -> i < last -> linked cat i) ->
  forall n i row_i row_last,
    a <= i -> i + Datatypes.S n = last ->
    nth_error cat i = Some row_i -> nth_error cat last = Some row_last ->
    (c0 row_i =? c0 row_last)%float = true /\
    (c3 row_i =? c3 row_last)%float = true.
Proof.
  intros Hlinked. induction n as [|n IH]; intros i row_i row_last Ha Hn Hi Hl.
  - destruct (Hlinked i Ha) as (row & Hrow & Hs); [lia|].
    apply same_as_next_true in Hs. destruct Hs as (next & Hnext & H0 & H3).
    replace (i + 1) with last in Hnext by lia.
    assert (row = row_i) by congruence. assert (next = row_last) by congruence.
    subst. now split.
  - destruct (Hlinked i Ha) as (row & Hrow & Hs); [lia|].
    apply same_as_next_true in Hs. destruct Hs as (next & Hnext & H0 & H3).
    assert (row = row_i) by congruence. subst row.
    destruct (IH (i + 1) next row_last) as (G0 & G3);
      try assumption; try lia.
    split; eapply float_eqb_trans; eassumption.
Qed.

(** X3. Inside an appended range every row before the last has the RA of
    the last row and the redshift of the last row, in the sense of [==]:
    the ID read from the last row is read from the run's common RA and
    redshift.  (The declination is that of the last row alone.) *)
Theorem run_rows_share_RA_and_z
        (d : PyDict.dict props string) (full_member_cat : list member_row)
        (l : list (string * slice)) (ID : string) (s : slice)
        (i : nat) (row_i row_last : member_row) :
  build_list_ID_slice d full_member_cat = Ok l ->
  In (ID, s) l ->
  start s <= i -> i + 1 < stop s ->
  nth_error full_member_cat i = Some row_i ->
  nth_error full_member_cat (stop s - 1) = Some row_last ->
  (c0 row_i =? c0 row_last)%float = true /\
  (c3 row_i =? c3 row_last)%float = true.
Proof.
  intros Hbuild Hin Hlo Hhi Hi Hlast.
  destruct (run_bounds_and_links d full_member_cat l ID s Hbuild Hin)
    as (_ & _ & Hl).
  apply (linked_chain full_member_cat (start s) (stop s - 1))
    with (n := stop s - 1 - i - 1) (i := i); try assumption; try lia.
  intros j Hj1 Hj2. apply Hl; lia.
Qed.

(* ================================================================== *)
(** * How many entries, and when the scan fails *)

Lemma chained_length (lo hi : nat) (l : list slice) :
  chained lo l hi -> lo + List.length l <= hi.
Proof.
  revert lo; induction l as [|s l IH]; intros lo; simpl.
  - lia.
  - intros (Hs & Hlt & Hrest). apply IH in Hrest. lia.
Qed.

(** X4. A scan that ends appends at most one entry per row and at least
    one when the catalog has a row: the list is empty exactly for the empty
    catalog. *)
Theorem entries_bounded_by_rows
        (d : PyDict.dict props string) (full_member_cat : list member_row)
        (l : list (string * slice)) :
  build_list_ID_slice d full_member_cat = Ok l ->
  List.length l <= List.length full_member_cat /\
  (l = [] <-> full_member_cat = []).
Proof.
  intros Hbuild.
  pose proof (scan_ranges_chained d full_member_cat l Hbuild) as Hch.
  split.
  - apply chained_length in Hch. rewrite length_map in Hch. lia.
  - split.
    + intros ->. simpl in Hch. symmetry in Hch.
      now apply length_zero_iff_nil in Hch.
    + intros ->. apply chained_length in Hch. rewrite length_map in Hch.
      simpl in Hch. apply length_zero_iff_nil. lia.
Qed.

Section Counting.

Variable d : PyDict.dict props string.
Variable full_member_cat : list member_row.

Lemma closes_spec (i : nat) (row : member_row) :
  nth_error full_member_cat i = Some row ->
  forall b, same_as_next full_member_cat i (c0 row) (c3 row) = Ok b ->
            closes full_member_cat i = negb b.
Proof.
  intros Hrow b Hs. unfold closes. rewrite Hrow, Hs. now destruct b.
Qed.

Lemma filter_seq_snoc (f : nat -> bool) (n : nat) :
  filter f (seq 0 (n + 1)) =
  filter f (seq 0 n) ++ (if f n then [n] else []).
Proof.
  rewrite seq_app, filter_app. simpl. now destruct (f n).
Qed.

(** X5. A scan that ends appends one entry per row that fails the
    [continue] test: the number of entries is the number of such rows. *)
Theorem one_entry_per_closing_row (l : list (string * slice)) :
  build_list_ID_slice d full_member_cat = Ok l ->
  List.length l =
  List.length (filter (closes full_member_cat)
                      (seq 0 (List.length full_member_cat))) /\
  map (fun e => stop (snd e)) l =
  map (fun i => i + 1)
      (filter (closes full_member_cat)
              (seq 0 (List.length full_member_cat))).
Proof.
  unfold build_list_ID_slice, scan. intros H.
  destruct (for_range (index_step d full_member_cat)
                      (seq 0 (List.length full_member_cat)) init_state)
    as [st|e] eqn:Hrun; simpl in H; [|discriminate].
  injection H as <-.
  assert (G : map (fun e => stop (snd e)) (list_ID_slice st) =
              map (fun i => i + 1)
                  (filter (closes full_member_cat)
                          (seq 0 (0 + List.length full_member_cat)))).
  { apply (for_range_seq_inv _ (index_step d full_member_cat)
             (fun n s => map (fun e => stop (snd e)) (list_ID_slice s) =
                         map (fun i => i + 1)
                             (filter (closes full_member_cat) (seq 0 n)))
             (List.length full_member_cat) 0 init_state st);
      [| reflexivity | exact Hrun].
    intros i s s' Hi Hinv Hstep.
    assert (Hi' : i < List.length full_member_cat) by lia.
    rewrite filter_seq_snoc, map_app.
    destruct (index_step_Ok d full_member_cat i s s' Hi' Hstep)
      as (row & Hrow & [(Hs & _ & ->)|(Hs & ID & _ & ->)]);
      rewrite (closes_spec i row Hrow _ Hs); simpl.
    - now rewrite app_nil_r.
    - now rewrite map_app, Hinv. }
  simpl in G. split; [|exact G].
  rewrite <- (length_map (fun e => stop (snd e))), G. apply length_map.
Qed.

Lemma for_range_raise_at (S : Type) (body : nat -> S -> result S)
      (range : list nat) (st : S) (e : exn) :
  for_range body range st = Raise e ->
  exists i s, In i range /\ body i s = Raise e.
Proof.
  revert st; induction range as [|i rest IH]; intros st H; simpl in H;
    [discriminate|].
  destruct (body i st) as [s1|e1] eqn:Hb; simpl in H.
  - destruct (IH s1 H) as (j & s & Hj & Hs). exists j, s.
    split; [now right | exact Hs].
  - injection H as <-. exists i, st. split; [now left | exact Hb].
Qed.

Lemma scan_prefix_total (n : nat) :
  n <= List.length full_member_cat ->
  (forall i row, closing full_member_cat i row ->
                 exists ID, resolve_ID d (c0 row) (c1 row) (c3 row) = Ok ID) ->
  exists st, for_range (index_step d full_member_cat) (seq 0 n) init_state
             = Ok st.
Proof.
  intros Hn Hall. induction n as [|n IH].
  - exists init_state. reflexivity.
  - destruct IH as (st & Hst); [lia|].
    replace (Datatypes.S n) with (n + 1) by lia.
    rewrite seq_app, for_range_app, Hst. simpl.
    unfold index_step.
    destruct (nth_error full_member_cat n) as [row|] eqn:Hrow.
    + destruct (same_as_next_total full_member_cat n (c0 row) (c3 row))
        as (b & Hb & _); [lia|].
      rewrite Hb. simpl. destruct b.
      * eexists; reflexivity.
      * destruct (Hall n row (conj Hrow Hb)) as (ID & ->). simpl.
        eexists; reflexivity.
    + apply nth_error_None in Hrow. lia.
Qed.

(** X6. The scan ends exactly when [resolve_ID] succeeds on every row
    that fails the [continue] test.  Otherwise it raises a [KeyError], that
    of such a row; the rows inside a run are never looked up. *)
Theorem scan_ends_iff_closing_rows_resolve :
  ((exists l, build_list_ID_slice d full_member_cat = Ok l) <->
   (forall i row, closing full_member_cat i row ->
        exists ID, resolve_ID d (c0 row) (c1 row) (c3 row) = Ok ID)) /\
  (forall e, build_list_ID_slice d full_member_cat = Raise e ->
     e = KeyError /\
     exists i row, closing full_member_cat i row /\
        resolve_ID d (c0 row) (c1 row) (c3 row) = Raise KeyError).
Proof.
  split; [split|].
  - intros (l & Hl) i row (Hrow & Hs).
    assert (Hi : i < List.length full_member_cat)
      by (apply nth_error_Some; congruence).
    unfold build_list_ID_slice, scan in Hl.
    rewrite (scan_split d full_member_cat i init_state Hi) in Hl.
    destruct (for_range (index_step d full_member_cat) (seq 0 i) init_state)
      as [st|] eqn:Hpre; cbn [bind] in Hl; [|discriminate].
    rewrite (closing_row_step d full_member_cat i row st Hrow Hs) in Hl.
    destruct (resolve_ID d (c0 row) (c1 row) (c3 row)) as [ID|];
      [now exists ID | discriminate].
  - intros Hall.
    destruct (scan_prefix_total _ (le_n _) Hall) as (st & Hst).
    exists (list_ID_slice st). unfold build_list_ID_slice, scan.
    now rewrite Hst.
  - intros e He. unfold build_list_ID_slice, scan in He.
    destruct (for_range (index_step d full_member_cat)
                        (seq 0 (List.length full_member_cat)) init_state)
      as [st|e'] eqn:Hrun; simpl in He; [discriminate|].
    injection He as ->.
    destruct (for_range_raise_at _ _ _ _ _ Hrun) as (i & s & Hi & Hstep).
    apply in_seq in Hi.
    assert (Hk : e = KeyError)
      by (apply (index_step_raises d full_member_cat i s e); [lia | exact Hstep]).
    subst e. split; [reflexivity|].
    unfold index_step in Hstep.
    destruct (nth_error full_member_cat i) as [row|] eqn:Hrow;
      [|apply nth_error_None in Hrow; lia].
    destruct (same_as_next_total full_member_cat i (c0 row) (c3 row))
      as (b & Hb & _); [lia|].
    rewrite Hb in Hstep. simpl in Hstep. destruct b; [discriminate|].
    destruct (resolve_ID d (c0 row) (c1 row) (c3 row)) as [ID|e] eqn:Hr;
      simpl in Hstep; [discriminate|].
    injection Hstep as ->.
    exists i, row. split; [now split | exact Hr].
Qed.

End Counting.

(* ================================================================== *)
(** * The identity map as a map *)

Lemma props_eqb_false_sym (a b : props) :
  props_eqb a b = false -> props_eqb b a = false.
Proof.
  intros H. destruct (props_eqb b a) eqn:E; [|reflexivity].
  apply props_eqb_sym in E. congruence.
Qed.

Lemma last_write_list_props_ID_none
      (HSC_cl_cat : list cluster_row) (k : props) :
  Forall (fun b => props_eqb (cluster_key b) k = false) HSC_cl_cat ->
  PyDict.last_write props_eqb (list_props_ID HSC_cl_cat) k = None.
Proof.
  intros H. apply last_write_none. intros kv Hkv.
  unfold list_props_ID in Hkv. apply in_map_iff in Hkv.
  destruct Hkv as (r & <- & Hr). simpl.
  rewrite Forall_forall in H. now apply H.
Qed.

(** X7. When no two rows of the cluster catalog have equal keys, the
    identity map answers the key of every row with that row's own ID; the
    key must equal itself, that is hold no NaN. *)
Theorem identity_map_round_trip
        (HSC_cl_cat : list cluster_row) (r : cluster_row) :
  unique_keys HSC_cl_cat ->
  In r HSC_cl_cat ->
  props_eqb (cluster_key r) (cluster_key r) = true ->
  PyDict.get props_eqb (dict_props_ID HSC_cl_cat) (cluster_key r)
  = Some (cl_ID r).
Proof.
  intros Huniq Hin Hrefl. rewrite dict_props_ID_get.
  unfold unique_keys in Huniq.
  induction Huniq as [|a rest Ha Hrest IH]; [destruct Hin|].
  rewrite list_props_ID_cons. cbn [PyDict.last_write].
  destruct Hin as [->|Hin].
  - rewrite last_write_list_props_ID_none.
    + unfold cluster_key in Hrefl |- *. now rewrite Hrefl.
    + rewrite Forall_forall in Ha |- *. intros b Hb.
      apply props_eqb_false_sym. now apply Ha.
  - now rewrite (IH Hin).
Qed.

Lemma FOP_snoc (A : Type) (R : A -> A -> Prop) (l : list A) (x : A) :
  ForallOrdPairs R l -> Forall (fun a => R a x) l ->
  ForallOrdPairs R (l ++ [x]).
Proof.
  intros Hl Hx. induction Hl as [|a l Ha Hl IH]; simpl.
  - constructor; constructor.
  - inversion Hx as [|? ? Hax Hx']; subst. constructor.
    + apply Forall_app. split; [exact Ha | now constructor].
    + now apply IH.
Qed.

Section DictInvariant.

Variables K V : Type.
Variable keq : K -> K -> bool.

Lemma keys_assign_distinct (l : list (K * V)) (d : PyDict.dict K V) :
  ForallOrdPairs (fun a b => keq a b = false) (PyDict.keys d) ->
  ForallOrdPairs (fun a b => keq a b = false)
    (PyDict.keys
       (fold_left (fun d kv => PyDict.set keq d (fst kv) (snd kv)) l d)).
Proof.
  revert d; induction l as [|[k v] l IH]; intros d Hd; simpl; [exact Hd|].
  apply IH. rewrite keys_set_eq. unfold PyDict.mem.
  destruct (existsb (fun k' => keq k' k) (PyDict.keys d)) eqn:E; [exact Hd|].
  apply FOP_snoc; [exact Hd|].
  apply Forall_forall. intros a Ha.
  destruct (keq a k) eqn:Ea; [|reflexivity].
  assert (existsb (fun k' => keq k' k) (PyDict.keys d) = true)
    by (apply existsb_exists; now exists a).
  congruence.
Qed.

Lemma keys_assign_from (l : list (K * V)) (d : PyDict.dict K V) :
  incl (PyDict.keys
          (fold_left (fun d kv => PyDict.set keq d (fst kv) (snd kv)) l d))
       (PyDict.keys d ++ map fst l).
Proof.
  revert d; induction l as [|[k v] l IH]; intros d; simpl.
  - rewrite app_nil_r. apply incl_refl.
  - intros x Hx. apply IH in Hx. apply in_app_or in Hx.
    destruct Hx as [Hx|Hx].
    + apply keys_set_incl in Hx. destruct Hx as [<-|Hx];
        apply in_or_app; [right; now left | now left].
    + apply in_or_app. right. now right.
Qed.

Lemma distinct_from_le (seen ks : list K) :
  PyDict.distinct_from keq seen ks <= List.length ks.
Proof.
  revert seen; induction ks as [|k ks IH]; intros seen; simpl; [lia|].
  specialize (IH (k :: seen)).
  destruct (existsb (fun k' => keq k' k) seen); simpl; lia.
Qed.

End DictInvariant.

(** X8. The identity map never holds two equal keys: of any two of its
    keys the earlier is not [==] to the later.  Each key is the key of a
    catalog row, and there are at most as many as rows. *)
Theorem identity_map_keys_distinct (HSC_cl_cat : list cluster_row) :
  ForallOrdPairs (fun a b => props_eqb a b = false)
                 (PyDict.keys (dict_props_ID HSC_cl_cat)) /\
  incl (PyDict.keys (dict_props_ID HSC_cl_cat))
       (map cluster_key HSC_cl_cat) /\
  PyDict.len (dict_props_ID HSC_cl_cat) <= List.length HSC_cl_cat.
Proof.
  split; [|split].
  - unfold dict_props_ID, PyDict.of_list.
    apply keys_assign_distinct. constructor.
  - unfold dict_props_ID, PyDict.of_list.
    intros x Hx. apply keys_assign_from in Hx. simpl in Hx.
    unfold list_props_ID in Hx. rewrite map_map in Hx. exact Hx.
  - rewrite len_dict_props_ID. unfold distinct_keys.
    rewrite <- (length_map cluster_key HSC_cl_cat).
    apply distinct_from_le.
Qed.

Section NaN.

Lemma SFeqb_self_false (a : spec_float) : SFeqb a a = false -> a = S754_nan.
Proof.
  unfold SFeqb, SFcompare. destruct a as [s|s| |s m e]; try reflexivity.
  - discriminate.
  - destruct s; discriminate.
  - destruct s; rewrite Z.compare_refl, Pos.compare_cont_refl; discriminate.
Qed.

Lemma not_self_equal_is_nan (x : float) :
  (x =? x)%float = false -> Prim2SF x = S754_nan.
Proof. rewrite eqb_spec. apply SFeqb_self_false. Qed.

Lemma eqb_nan (x y : float) :
  Prim2SF x = S754_nan -> (x =? y)%float = false.
Proof. intros H. rewrite eqb_spec, H. reflexivity. Qed.

Lemma add_nan (x y : float) :
  Prim2SF x = S754_nan -> Prim2SF (x + y) = S754_nan.
Proof. intros H. rewrite add_spec, H. reflexivity. Qed.

Lemma sub_nan (x y : float) :
  Prim2SF x = S754_nan -> Prim2SF (x - y) = S754_nan.
Proof. intros H. rewrite sub_spec, H. reflexivity. Qed.

Lemma mul_nan (x y : float) :
  Prim2SF x = S754_nan -> Prim2SF (x * y) = S754_nan.
Proof. intros H. rewrite mul_spec, H. reflexivity. Qed.

Lemma div_nan (x y : float) :
  Prim2SF x = S754_nan -> Prim2SF (x / y) = S754_nan.
Proof. intros H. rewrite div_spec, H. reflexivity. Qed.

(** [np.rint] and [np.round(x, 3)] leave a NaN a NaN. *)
Lemma rint_nan (x : float) : Prim2SF x = S754_nan -> rint x = x.
Proof.
  intros H. unfold rint.
  assert (E : (abs x <? two52)%float = false)
    by (rewrite ltb_spec, abs_spec, H; reflexivity).
  now rewrite E.
Qed.

Lemma round3_nan (x : float) :
  Prim2SF x = S754_nan -> Prim2SF (round3 x) = S754_nan.
Proof.
  intros H. unfold round3. apply div_nan.
  rewrite rint_nan; now apply mul_nan.
Qed.

End NaN.

(** X9. A key that is not [==] to itself, one that holds a NaN, is never
    found in the identity map, whatever the catalog.  So a run whose last
    row has a NaN for RA, declination or redshift stops the scan with a
    [KeyError]: the two nudged redshifts of a NaN are NaN again. *)
Theorem NaN_key_is_never_found
        (HSC_cl_cat : list cluster_row) (full_member_cat : list member_row)
        (i : nat) (row : member_row) :
  closing full_member_cat i row ->
  props_eqb (c0 row, c1 row, c3 row) (c0 row, c1 row, c3 row) = false ->
  (forall k, props_eqb k k = false ->
             PyDict.get props_eqb (dict_props_ID HSC_cl_cat) k = None) /\
  dict_ID_slice (dict_props_ID HSC_cl_cat) full_member_cat = Raise KeyError.
Proof.
  intros (Hrow & Hs) Hnan.
  assert (Hmiss : forall k, props_eqb k k = false ->
             PyDict.get props_eqb (dict_props_ID HSC_cl_cat) k = None).
  { intros k Hk.
    destruct (PyDict.get props_eqb (dict_props_ID HSC_cl_cat) k) as [v|] eqn:E;
      [|reflexivity].
    apply get_In in E. destruct E as (k' & _ & Hk').
    assert (props_eqb k k = true)
      by (eapply props_eqb_trans; [apply props_eqb_sym|]; eassumption).
    congruence. }
  split; [exact Hmiss|].
  assert (Hi : i < List.length full_member_cat)
    by (apply nth_error_Some; congruence).
  unfold dict_ID_slice, build_list_ID_slice, scan.
  rewrite (scan_split _ full_member_cat i init_state Hi).
  destruct (for_range (index_step (dict_props_ID HSC_cl_cat) full_member_cat)
                      (seq 0 i) init_state) as [st|e] eqn:Hpre; cbn [bind].
  - rewrite (closing_row_step _ full_member_cat i row st Hrow Hs).
    rewrite resolve_ID_first_hit, first_hit_all_miss; [reflexivity|].
    intros k Hk. apply Hmiss. unfold candidate_keys in Hk.
    unfold props_eqb in Hnan. apply andb_false_iff in Hnan.
    destruct Hnan as [Hnan|Hz]; [apply andb_false_iff in Hnan|].
    + destruct Hk as [<-|[<-|[<-|[]]]]; unfold props_eqb;
        destruct Hnan as [-> | ->]; rewrite ?andb_false_r; reflexivity.
    + apply not_self_equal_is_nan in Hz.
      destruct Hk as [<-|[<-|[<-|[]]]]; unfold props_eqb.
      * now rewrite (eqb_nan (c3 row) _ Hz), andb_false_r.
      * now rewrite (eqb_nan _ _ (round3_nan _ (add_nan _ 0.001 Hz))),
          andb_false_r.
      * now rewrite (eqb_nan _ _ (round3_nan _ (sub_nan _ 0.001 Hz))),
          andb_false_r.
  - assert (e = KeyError)
      by (eapply (scan_prefix_raises _ full_member_cat i); [lia | exact Hpre]).
    now subst e.
Qed.

(* ================================================================== *)
(** * One file per cluster ID *)

Section Strings.

Lemma string_length_app (a b : string) :
  String.length (a ++ b) = String.length a + String.length b.
Proof. induction a as [|c a IH]; simpl; [reflexivity | now rewrite IH]. Qed.

Lemma string_app_inv_head (a x y : string) :
  (a ++ x)%string = (a ++ y)%string -> x = y.
Proof.
  induction a as [|c a IH]; simpl; [auto|]. intros [= H]. now apply IH.
Qed.

Lemma string_app_same_length (a b x y : string) :
  (a ++ x)%string = (b ++ y)%string ->
  String.length a = String.length b -> a = b.
Proof.
  revert b; induction a as [|c a IH]; intros [|c' b]; simpl;
    try discriminate; [reflexivity|].
  intros [= -> H] [= Hlen]. f_equal. now apply IH.
Qed.

End Strings.

Lemma mem_list_path_inj (ID1 ID2 : string) :
  mem_list_path ID1 = mem_list_path ID2 -> ID1 = ID2.
Proof.
  unfold mem_list_path. intros H.
  apply string_app_inv_head in H.
  apply (string_app_same_length _ _ _ _ H).
  apply (f_equal String.length) in H.
  repeat (rewrite string_length_app in H; simpl in H). lia.
Qed.

(** X10. Two cluster IDs with the same output path are the same ID: no
    two clusters share a file. *)
Theorem mem_list_path_injective (ID1 ID2 : string) :
  mem_list_path ID1 = mem_list_path ID2 <-> ID1 = ID2.
Proof.
  split.
  - apply mem_list_path_inj.
  - now intros ->.
Qed.

Section FileSystem.

Variables K V : Type.
Variable keq : K -> K -> bool.

(** Assigning twice to a key leaves what the second assignment alone
    leaves. *)
Lemma set_set (d : PyDict.dict K V) (k : K) (v v' : V) :
  keq k k = true ->
  PyDict.set keq (PyDict.set keq d k v) k v' = PyDict.set keq d k v'.
Proof.
  intros Hk. induction d as [|[k1 v1] d IH]; simpl.
  - now rewrite Hk.
  - destruct (keq k1 k) eqn:E; simpl; rewrite E; [reflexivity|].
    now rewrite IH.
Qed.

End FileSystem.

Lemma savetxt_other (fname other : string) (X : list (float * float))
      (delimiter header : string) (fs : filesystem) :
  other <> fname ->
  PyDict.get String.eqb (np_savetxt fname X delimiter header fs) other =
  PyDict.get String.eqb fs other.
Proof.
  intros Hne. unfold np_savetxt.
  rewrite (get_set _ _ String.eqb string_eqb_sym string_eqb_trans).
  destruct (String.eqb fname other) eqn:E; [|reflexivity].
  apply String.eqb_eq in E. congruence.
Qed.

Lemma save_mem_list_Ok (idx : PyDict.dict string slice)
      (full_member_cat : list member_row) (ID : string) (s : slice)
      (fs : filesystem) :
  PyDict.get String.eqb idx ID = Some s ->
  save_mem_list idx full_member_cat ID fs =
  (Ok tt, PyDict.set String.eqb fs (mem_list_path ID)
                     (mem_list_artifact full_member_cat s)).
Proof.
  intros Hget. unfold save_mem_list, np_savetxt, mem_list_artifact.
  rewrite Hget, cut_mem_list_filter. reflexivity.
Qed.

(** X11. Extracting the same cluster twice leaves the file system the
    first extraction left, and an extraction changes no file but the
    cluster's own: every other path reads as before. *)
Theorem extraction_is_idempotent_and_local
        (idx : PyDict.dict string slice) (full_member_cat : list member_row)
        (ID : string) (s : slice) (fs : filesystem) :
  PyDict.get String.eqb idx ID = Some s ->
  let fs1 := snd (save_mem_list idx full_member_cat ID fs) in
  save_mem_list idx full_member_cat ID fs1 = (Ok tt, fs1) /\
  PyDict.get String.eqb fs1 (mem_list_path ID)
    = Some (mem_list_artifact full_member_cat s) /\
  (forall path, path <> mem_list_path ID ->
     PyDict.get String.eqb fs1 path = PyDict.get String.eqb fs path) /\
  PyDict.len fs <= PyDict.len fs1 <= Datatypes.S (PyDict.len fs).
Proof.
  intros Hget fs1. subst fs1.
  rewrite (save_mem_list_Ok idx full_member_cat ID s fs Hget). simpl.
  rewrite (save_mem_list_Ok idx full_member_cat ID s _ Hget).
  split; [|split; [|split]].
  - now rewrite set_set by apply String.eqb_refl.
  - rewrite (get_set _ _ String.eqb string_eqb_sym string_eqb_trans).
    now rewrite String.eqb_refl.
  - intros path Hne.
    rewrite (get_set _ _ String.eqb string_eqb_sym string_eqb_trans).
    destruct (String.eqb (mem_list_path ID) path) eqn:E; [|reflexivity].
    apply String.eqb_eq in E. congruence.
  - rewrite !len_keys, keys_set_eq.
    destruct (PyDict.mem String.eqb fs (mem_list_path ID));
      [lia | rewrite length_app; simpl; lia].
Qed.

(* ================================================================== *)
(** * The loop over a list of IDs *)

Section Loop.

Variable idx : PyDict.dict string slice.
Variable full_member_cat : list member_row.

Lemma save_each_app (IDs1 IDs2 : list string) (fs : filesystem) :
  save_each idx full_member_cat (IDs1 ++ IDs2) fs =
  match save_each idx full_member_cat IDs1 fs with
  | (Ok _, fs') => save_each idx full_member_cat IDs2 fs'
  | (Raise e, fs') => (Raise e, fs')
  end.
Proof.
  revert fs; induction IDs1 as [|ID IDs1 IH]; intros fs; simpl.
  - reflexivity.
  - destruct (save_mem_list idx full_member_cat ID fs) as [[[]|e] fs'];
      [apply IH | reflexivity].
Qed.

Lemma save_each_known (IDs : list string) (fs : filesystem) :
  (forall ID, In ID IDs -> exists s, PyDict.get String.eqb idx ID = Some s) ->
  exists fs',
    save_each idx full_member_cat IDs fs = (Ok tt, fs') /\
    (forall ID s, In ID IDs -> PyDict.get String.eqb idx ID = Some s ->
       PyDict.get String.eqb fs' (mem_list_path ID)
       = Some (mem_list_artifact full_member_cat s)) /\
    (forall path, (forall ID, In ID IDs -> path <> mem_list_path ID) ->
       PyDict.get String.eqb fs' path = PyDict.get String.eqb fs path).
Proof.
  revert fs; induction IDs as [|a rest IH]; intros fs Hknown.
  - exists fs. simpl. split; [reflexivity | split; [intros ? ? [] | auto]].
  - destruct (Hknown a (or_introl eq_refl)) as (sa & Hsa).
    simpl. rewrite (save_mem_list_Ok idx full_member_cat a sa fs Hsa).
    set (fs1 := PyDict.set String.eqb fs (mem_list_path a)
                           (mem_list_artifact full_member_cat sa)).
    destruct (IH fs1) as (fs' & Hrun & Hwritten & Hother).
    { intros ID HID. apply Hknown. now right. }
    exists fs'. split; [exact Hrun | split].
    + intros ID s HID Hs.
      destruct (in_dec string_dec ID rest) as [Hin|Hnot];
        [now apply Hwritten|].
      destruct HID as [<-|HID]; [|contradiction].
      rewrite Hother.
      * unfold fs1.
        rewrite (get_set _ _ String.eqb string_eqb_sym string_eqb_trans).
        rewrite String.eqb_refl. congruence.
      * intros ID' HID' Heq. apply mem_list_path_inj in Heq. congruence.
    + intros path Hpath. rewrite Hother.
      * unfold fs1.
        rewrite (get_set _ _ String.eqb string_eqb_sym string_eqb_trans).
        destruct (String.eqb (mem_list_path a) path) eqn:E; [|reflexivity].
        apply String.eqb_eq in E. exfalso.
        apply (Hpath a (or_introl eq_refl)). now symmetry.
      * intros ID HID. apply Hpath. now right.
Qed.



(** X13. At the first ID the index does not hold, the loop stops with a
    [KeyError].  The file system is then the one the IDs before it left:
    their files are written, the IDs after it are not reached, and the file
    of an ID that is not among the earlier ones reads as before the loop. *)
Theorem loop_stops_at_first_unknown_ID
        (before after : list string) (unknown : string) (fs : filesystem) :
  (forall ID, In ID before ->
              exists s, PyDict.get String.eqb idx ID = Some s) ->
  PyDict.get String.eqb idx unknown = None ->
  exists fs',
    save_each idx full_member_cat before fs = (Ok tt, fs') /\
    save_each idx full_member_cat (before ++ unknown :: after) fs
      = (Raise KeyError, fs') /\
    (forall ID s, In ID before -> PyDict.get String.eqb idx ID = Some s ->
       PyDict.get String.eqb fs' (mem_list_path ID)
       = Some (mem_list_artifact full_member_cat s)) /\
    (forall ID, ~ In ID before ->
       PyDict.get String.eqb fs' (mem_list_path ID)
       = PyDict.get String.eqb fs (mem_list_path ID)).
Proof.
  intros Hknown Hunknown.
  destruct (save_each_known before fs Hknown) as (fs' & Hrun & Hw & Ho).
  exists fs'. split; [exact Hrun | split; [|split; [exact Hw|]]].
  - rewrite save_each_app, Hrun. simpl.
    unfold save_mem_list. now rewrite Hunknown.
  - intros ID Hnot. apply Ho. intros ID' HID' Heq.
    apply mem_list_path_inj in Heq. congruence.
Qed.

End Loop.

(* ================================================================== *)
(** * The index and the extractor together *)

Lemma getslice_length (A : Type) (a : list A) (s : slice) :
  stop s <= List.length a ->
  List.length (getslice a s) = stop s - start s.
Proof.
  intros H. unfold getslice. rewrite length_firstn, length_skipn. lia.
Qed.

Lemma last_write_NoDup (l : list (string * slice)) (ID : string) (s : slice) :
  NoDup (map fst l) ->
  (PyDict.last_write String.eqb l ID = Some s <-> In (ID, s) l).
Proof.
  intros Hnd. split.
  - intros H. apply last_write_In in H. destruct H as (k' & Hin & Hk').
    apply String.eqb_eq in Hk'. now subst.
  - induction l as [|[k v] l IH]; simpl; [tauto|].
    inversion Hnd as [|? ? Hnot Hnd']; subst.
    intros [[= -> ->]|Hin].
    + rewrite last_write_none.
      * now rewrite String.eqb_refl.
      * intros [k' v'] Hkv. simpl. apply String.eqb_neq. intros ->.
        apply Hnot. change ID with (fst (ID, v')). now apply in_map.
    + now rewrite (IH Hnd' Hin).
Qed.

(** X14. For an index built by the scan, an ID it holds gives a slice
    that lies inside the catalog, so nothing is clamped: the extractor cuts
    exactly [stop - start] rows, those of one run whose last row resolved
    to the ID, and writes at most that many pairs. *)
Theorem extraction_reads_one_run
        (d : PyDict.dict props string) (full_member_cat : list member_row)
        (idx : PyDict.dict string slice) (ID : string) (s : slice)
        (fs : filesystem) :
  dict_ID_slice d full_member_cat = Ok idx ->
  PyDict.get String.eqb idx ID = Some s ->
  start s < stop s /\ stop s <= List.length full_member_cat /\
  List.length (getslice full_member_cat s) = stop s - start s /\
  (forall i, start s <= i -> i + 1 < stop s -> linked full_member_cat i) /\
  (exists row, closing full_member_cat (stop s - 1) row /\
               resolve_ID d (c0 row) (c1 row) (c3 row) = Ok ID) /\
  save_mem_list idx full_member_cat ID fs =
    (Ok tt, PyDict.set String.eqb fs (mem_list_path ID)
                       (mem_list_artifact full_member_cat s)) /\
  List.length (art_X (mem_list_artifact full_member_cat s))
    <= stop s - start s.
Proof.
  intros Hidx Hget. unfold dict_ID_slice in Hidx.
  destruct (build_list_ID_slice d full_member_cat) as [l|] eqn:Hbuild;
    simpl in Hidx; [|discriminate].
  injection Hidx as <-.
  pose proof Hget as Hin. rewrite index_get in Hin.
  apply last_write_In in Hin. destruct Hin as (k' & Hin & Hk').
  apply String.eqb_eq in Hk'. subst k'.
  destruct (run_inv_end d full_member_cat l Hbuild (ID, s) Hin)
    as (Hstop & Hlt & Hlinks & Hlast).
  simpl in *.
  assert (Hlen : List.length (getslice full_member_cat s) = stop s - start s)
    by (now apply getslice_length).
  repeat split; try assumption.
  - now apply save_mem_list_Ok.
  - unfold mem_list_artifact; simpl. rewrite length_map, <- Hlen.
    apply filter_length_le.
Qed.

(** X15. When the runs of a finished scan resolve to pairwise different
    IDs, the index keeps every run: it answers an ID with a range exactly
    when the scan appended that pair, it has one entry per run, and every
    row of the catalog lies in the range of exactly one entry. *)
Theorem index_keeps_every_run_of_distinct_IDs
        (d : PyDict.dict props string) (full_member_cat : list member_row)
        (l : list (string * slice)) :
  build_list_ID_slice d full_member_cat = Ok l ->
  NoDup (map fst l) ->
  exists idx,
    dict_ID_slice d full_member_cat = Ok idx /\
    (forall ID s, PyDict.get String.eqb idx ID = Some s <-> In (ID, s) l) /\
    PyDict.len idx = List.length l /\
    (forall j, j < List.length full_member_cat ->
       exists ID s,
         PyDict.get String.eqb idx ID = Some s /\ covers s j /\
         forall ID' s', PyDict.get String.eqb idx ID' = Some s' ->
                        covers s' j -> ID' = ID /\ s' = s).
Proof.
  intros Hbuild Hnd.
  pose proof (scan_ranges_chained d full_member_cat l Hbuild) as Hch.
  exists (PyDict.of_list String.eqb l).
  assert (Hiff : forall ID s,
             PyDict.get String.eqb (PyDict.of_list String.eqb l) ID = Some s
             <-> In (ID, s) l)
    by (intros ID s; rewrite index_get; now apply last_write_NoDup).
  split; [unfold dict_ID_slice; now rewrite Hbuild|].
  split; [exact Hiff | split].
  - destruct (index_keys l) as (Hk1 & Hk2).
    rewrite len_keys, <- (length_map fst l).
    apply Nat.le_antisymm; apply NoDup_incl_length; try assumption;
      intros x Hx; now apply Hk2.
  - intros j Hj.
    destruct (chained_covers_all _ _ _ j Hch) as (s & Hs & Hc); [lia|].
    apply in_map_iff in Hs. destruct Hs as ([ID s0] & Heq & Hin).
    simpl in Heq. subst s0.
    exists ID, s. split; [now apply Hiff | split; [exact Hc|]].
    intros ID' s' Hget' Hc'. apply Hiff in Hget'.
    assert (Hs' : In s' (map snd l))
      by (change s' with (snd (ID', s')); now apply in_map).
    assert (Hs : In s (map snd l))
      by (change s with (snd (ID, s)); now apply in_map).
    assert (s' = s)
      by (exact (chained_covers_unique _ _ _ s' s j Hch Hs' Hs Hc' Hc)).
    subst s'. split; [|reflexivity].
    exact (NoDup_snd_unique _ _ l ID' ID s
             (chained_NoDup _ _ _ Hch) Hget' Hin).
Qed.

(* ================================================================== *)
(** * The selection of clusters in the offset notebook *)

Section FloatOrder.




End FloatOrder.

Section Masks.

Variable A : Type.




End Masks.







(* ================================================================== *)
(** * NaN through the line-of-sight distance *)

Section NaNRight.

Lemma is_nan_spec (x : float) :
  is_nan x = true <-> Prim2SF x = S754_nan.
Proof.
  unfold is_nan. rewrite negb_true_iff. split.
  - apply not_self_equal_is_nan.
  - apply eqb_nan.
Qed.

Lemma sub_nan_r (x y : float) :
  Prim2SF y = S754_nan -> Prim2SF (x - y) = S754_nan.
Proof. intros H. rewrite sub_spec, H. now destruct (Prim2SF x). Qed.

Lemma add_nan_r (x y : float) :
  Prim2SF y = S754_nan -> Prim2SF (x + y) = S754_nan.
Proof. intros H. rewrite add_spec, H. now destruct (Prim2SF x). Qed.

Lemma div_nan_r (x y : float) :
  Prim2SF y = S754_nan -> Prim2SF (x / y) = S754_nan.
Proof. intros H. rewrite div_spec, H. now destruct (Prim2SF x). Qed.

End NaNRight.

(** X19. When one of the two comoving distances, or z1, is NaN, the
    operation returns NaN: the final rounding turns no NaN into a number. *)
Theorem LOS_distance_diff_keeps_NaN
        (cosmo : cosmology) (z1 z2 : float) :
  is_nan (comoving_distance cosmo z1) = true \/
  is_nan (comoving_distance cosmo z2) = true \/
  is_nan z1 = true ->
  is_nan (LOS_distance_diff cosmo z1 z2) = true.
Proof.
  rewrite !is_nan_spec. intros H. unfold LOS_distance_diff, round0.
  assert (G : Prim2SF (comoving_distance cosmo z2 / (1 + z1)
                       - comoving_distance cosmo z1 / (1 + z1))%float
              = S754_nan).
  { destruct H as [H|[H|H]].
    - apply sub_nan_r. now apply div_nan.
    - apply sub_nan. now apply div_nan.
    - apply sub_nan. apply div_nan_r. now apply add_nan_r. }
  now rewrite rint_nan.
Qed.

(* ================================================================== *)
(** * The statements above on the small catalogs *)

Lemma build_AB :
  build_list_ID_slice (dict_props_ID Examples.cl_cat) Examples.mem_cat
  = Ok MoreExamples.idx_AB.
Proof. vm_compute. reflexivity. Qed.

Lemma In_A_idx_AB :
  In ("C19a1sW00001"%string, mkslice 0 4) MoreExamples.idx_AB.
Proof. now left. Qed.

(** The run of cluster A: rows 0 to 3, row 2 linked to row 3, row 3 last. *)
Lemma appended_range_is_a_run_witness :
  start (mkslice 0 4) < stop (mkslice 0 4) /\
  linked Examples.mem_cat 2 /\
  exists row, closing Examples.mem_cat 3 row.
Proof.
  destruct (appended_range_is_a_run
              (dict_props_ID Examples.cl_cat) Examples.mem_cat
              MoreExamples.idx_AB "C19a1sW00001"%string (mkslice 0 4)
              build_AB In_A_idx_AB) as (H1 & _ & H3 & H4).
  split; [exact H1 | split; [|exact H4]].
  apply H3; simpl; lia.
Defined.

(** The ID of the run of A is read from row 3. *)
Lemma appended_ID_is_of_last_row_witness :
  exists row,
    nth_error Examples.mem_cat 3 = Some row /\
    resolve_ID (dict_props_ID Examples.cl_cat) (c0 row) (c1 row) (c3 row)
      = Ok "C19a1sW00001"%string /\
    In "C19a1sW00001"%string (PyDict.values (dict_props_ID Examples.cl_cat)).
Proof.
  exact (appended_ID_is_of_last_row
           (dict_props_ID Examples.cl_cat) Examples.mem_cat
           MoreExamples.idx_AB "C19a1sW00001"%string (mkslice 0 4)
           build_AB In_A_idx_AB).
Defined.

(** Row 0 of the run of A against its last row, row 3. *)
Lemma run_rows_share_RA_and_z_witness :
  (c0 (Examples.mem_A 10.51 (-1.24) 0.05)
   =? c0 (Examples.mem_A 10.5 (-1.23) 1))%float = true /\
  (c3 (Examples.mem_A 10.51 (-1.24) 0.05)
   =? c3 (Examples.mem_A 10.5 (-1.23) 1))%float = true.
Proof.
  apply (run_rows_share_RA_and_z
           (dict_props_ID Examples.cl_cat) Examples.mem_cat
           MoreExamples.idx_AB "C19a1sW00001"%string (mkslice 0 4) 0
           _ _ build_AB In_A_idx_AB);
    simpl; try lia; reflexivity.
Defined.

(** Two entries for six rows. *)
Lemma entries_bounded_by_rows_witness :
  List.length MoreExamples.idx_AB <= List.length Examples.mem_cat /\
  (MoreExamples.idx_AB = [] <-> Examples.mem_cat = []).
Proof.
  exact (entries_bounded_by_rows
           (dict_props_ID Examples.cl_cat) Examples.mem_cat
           MoreExamples.idx_AB build_AB).
Defined.

(** Rows 3 and 5 close a run: the ranges stop at 4 and at 6. *)
Lemma one_entry_per_closing_row_witness :
  map (fun e => stop (snd e)) MoreExamples.idx_AB =
  map (fun i => i + 1) (filter (closes Examples.mem_cat) (seq 0 6)).
Proof.
  exact (proj2 (one_entry_per_closing_row
                  (dict_props_ID Examples.cl_cat) Examples.mem_cat
                  MoreExamples.idx_AB build_AB)).
Defined.

Lemma unique_keys_cl_cat : unique_keys Examples.cl_cat.
Proof.
  unfold unique_keys, Examples.cl_cat.
  repeat constructor.
Qed.

(** The key of cluster B gives back the ID of B. *)
Lemma identity_map_round_trip_witness :
  PyDict.get props_eqb (dict_props_ID Examples.cl_cat)
             (cluster_key Examples.cl_B)
  = Some "C19a1sW00002"%string.
Proof.
  apply (identity_map_round_trip Examples.cl_cat Examples.cl_B
           unique_keys_cl_cat).
  - right. now left.
  - reflexivity.
Defined.

(** Two rows, the first with a NaN for the parent RA: it is a run of its
    own, and its key is not found. *)
Lemma NaN_key_is_never_found_witness :
  dict_ID_slice (dict_props_ID Examples.cl_cat) MoreExamples.mem_cat_nan
  = Raise KeyError.
Proof.
  refine (proj2 (NaN_key_is_never_found
                   Examples.cl_cat MoreExamples.mem_cat_nan 0
                   (mkmember nan (-1.25) 0.3 10.51 (-1.24) 0.9) _ _)).
  - split; reflexivity.
  - reflexivity.
Defined.

Lemma get_A_idx_AB :
  PyDict.get String.eqb MoreExamples.idx_AB "C19a1sW00001"%string
  = Some (mkslice 0 4).
Proof. reflexivity. Qed.

(** Extracting cluster A twice on an empty file system. *)
Lemma extraction_is_idempotent_and_local_witness :
  save_mem_list MoreExamples.idx_AB Examples.mem_cat "C19a1sW00001"%string
    (snd (save_mem_list MoreExamples.idx_AB Examples.mem_cat
                        "C19a1sW00001"%string []))
  = (Ok tt,
     snd (save_mem_list MoreExamples.idx_AB Examples.mem_cat
                        "C19a1sW00001"%string [])).
Proof.
  exact (proj1 (extraction_is_idempotent_and_local
                  MoreExamples.idx_AB Examples.mem_cat "C19a1sW00001"%string
                  (mkslice 0 4) [] get_A_idx_AB)).
Defined.


(** The loop over A, an unknown ID, B: the file of A and no other. *)
Lemma loop_stops_at_first_unknown_ID_witness :
  exists fs',
    save_each MoreExamples.idx_AB Examples.mem_cat
      (["C19a1sW00001"%string] ++
       "C19a1sW09999"%string :: ["C19a1sW00002"%string]) []
    = (Raise KeyError, fs') /\
    PyDict.get String.eqb fs' (mem_list_path "C19a1sW00002"%string) = None.
Proof.
  destruct (loop_stops_at_first_unknown_ID
              MoreExamples.idx_AB Examples.mem_cat
              ["C19a1sW00001"%string] ["C19a1sW00002"%string]
              "C19a1sW09999"%string [])
    as (fs' & _ & H2 & _ & H4).
  - intros ID [<-|[]]; eexists; reflexivity.
  - reflexivity.
  - exists fs'. split; [exact H2|].
    rewrite H4; [reflexivity|].
    intros [H|[]]. discriminate H.
Defined.

Lemma dict_AB :
  dict_ID_slice (dict_props_ID Examples.cl_cat) Examples.mem_cat
  = Ok MoreExamples.idx_AB.
Proof. vm_compute. reflexivity. Qed.

(** Cluster A in the index of the two-cluster catalog. *)
Lemma extraction_reads_one_run_witness :
  List.length (getslice Examples.mem_cat (mkslice 0 4)) = 4 /\
  List.length (art_X (mem_list_artifact Examples.mem_cat (mkslice 0 4)))
  <= 4.
Proof.
  destruct (extraction_reads_one_run
              (dict_props_ID Examples.cl_cat) Examples.mem_cat
              MoreExamples.idx_AB "C19a1sW00001"%string (mkslice 0 4) []
              dict_AB get_A_idx_AB)
    as (_ & _ & H3 & _ & _ & _ & H7).
  split; [exact H3 | exact H7].
Defined.

Lemma NoDup_IDs_AB : NoDup (map fst MoreExamples.idx_AB).
Proof.
  simpl. repeat constructor; simpl; intuition discriminate.
Qed.

(** The two runs of the two-cluster catalog have two IDs. *)
Lemma index_keeps_every_run_of_distinct_IDs_witness :
  exists idx,
    dict_ID_slice (dict_props_ID Examples.cl_cat) Examples.mem_cat = Ok idx /\
    PyDict.len idx = List.length MoreExamples.idx_AB.
Proof.
  destruct (index_keeps_every_run_of_distinct_IDs
              (dict_props_ID Examples.cl_cat) Examples.mem_cat
              MoreExamples.idx_AB build_AB NoDup_IDs_AB)
    as (idx & H1 & _ & H3 & _).
  exists idx. split; [exact H1 | exact H3].
Defined.

(** Hubble's law at z2 = NaN. *)
Lemma LOS_distance_diff_keeps_NaN_witness :
  is_nan (LOS_distance_diff Examples.hubble_law 0.3 nan) = true.
Proof.
  apply LOS_distance_diff_keeps_NaN. right. left. reflexivity.
Defined.

(* ================================================================== *)
(** * The scan of a catalog made of two catalogs *)

Lemma for_range_ext (S : Type) (body1 body2 : nat -> S -> result S)
      (range : list nat) (st : S) :
  (forall i s, In i range -> body1 i s = body2 i s) ->
  for_range body1 range st = for_range body2 range st.
Proof.
  revert st; induction range as [|i rest IH]; intros st H; simpl.
  - reflexivity.
  - rewrite (H i st) by now left.
    destruct (body2 i st) as [s1|e]; simpl; [|reflexivity].
    apply IH. intros j s Hj. apply H. now right.
Qed.

Section Append.

Variable d : PyDict.dict props string.
Variables cat1 cat2 : list member_row.
Hypothesis cut : boundary cat1 cat2.

#[local] Abbreviation n1 := (List.length cat1).
#[local] Abbreviation n2 := (List.length cat2).

(** On the rows of [cat1] an iteration does what it does on [cat1]
    alone. *)
Lemma index_step_left (i : nat) (st : loop_state) :
  i < n1 ->
  index_step d (cat1 ++ cat2) i st = index_step d cat1 i st.
Proof.
  intros Hi. unfold index_step.
  rewrite (nth_error_app1 cat1 cat2 Hi).
  destruct (nth_error cat1 i) as [row|] eqn:Hrow; [|reflexivity].
  assert (E : same_as_next (cat1 ++ cat2) i (c0 row) (c3 row) =
              same_as_next cat1 i (c0 row) (c3 row)).
  { unfold same_as_next. rewrite length_app.
    destruct (Nat.lt_ge_cases (i + 1) n1) as [Hlt|Hge].
    - assert (E1 : (i <? n1 + n2 - 1) = true) by (apply Nat.ltb_lt; lia).
      assert (E2 : (i <? n1 - 1) = true) by (apply Nat.ltb_lt; lia).
      rewrite E1, E2. now rewrite (nth_error_app1 cat1 cat2 Hlt).
    - assert (E2 : (i <? n1 - 1) = false) by (apply Nat.ltb_ge; lia).
      rewrite E2.
      destruct (i <? n1 + n2 - 1) eqn:E1; [|reflexivity].
      apply Nat.ltb_lt in E1.
      rewrite nth_error_app2 by lia.
      replace (i + 1 - n1) with 0 by lia.
      destruct (nth_error cat2 0) as [b|] eqn:Hb.
      + f_equal. apply (cut row b); [|exact Hb].
        unfold last_row. now replace (n1 - 1) with i by lia.
      + apply nth_error_None in Hb. lia. }
  now rewrite E.
Qed.

#[local] Abbreviation moved := (Runs.moved n1).

Lemma index_step_right (l1 : list (string * slice))
      (i : nat) (st st' s' : loop_state) :
  moved l1 st st' ->
  index_step d cat2 i st' = Ok s' ->
  exists s, index_step d (cat1 ++ cat2) (n1 + i) st = Ok s /\ moved l1 s s'.
Proof.
  intros (Hl & Hlow) Hstep. unfold index_step in *.
  rewrite nth_error_app2 by lia.
  replace (n1 + i - n1) with i by lia.
  destruct (nth_error cat2 i) as [row|] eqn:Hrow; [|discriminate].
  assert (Hi : i < n2) by (apply nth_error_Some; congruence).
  assert (E : same_as_next (cat1 ++ cat2) (n1 + i) (c0 row) (c3 row) =
              same_as_next cat2 i (c0 row) (c3 row)).
  { unfold same_as_next. rewrite length_app.
    replace (n1 + i <? n1 + n2 - 1) with (i <? n2 - 1)
      by (destruct (i <? n2 - 1) eqn:E1; symmetry;
          [apply Nat.ltb_lt; apply Nat.ltb_lt in E1
          |apply Nat.ltb_ge; apply Nat.ltb_ge in E1]; lia).
    destruct (i <? n2 - 1); [|reflexivity].
    rewrite nth_error_app2 by lia.
    now replace (n1 + i + 1 - n1) with (i + 1) by lia. }
  rewrite E.
  destruct (same_as_next cat2 i (c0 row) (c3 row)) as [b|]; simpl in *;
    [|discriminate].
  destruct b.
  - injection Hstep as <-. exists st. split; [reflexivity | now split].
  - destruct (resolve_ID d (c0 row) (c1 row) (c3 row)) as [ID|]; simpl in *;
      [|discriminate].
    injection Hstep as <-. eexists. split; [reflexivity|].
    split; simpl; [|lia].
    rewrite Hl, map_app, <- app_assoc. simpl. unfold shift; simpl.
    rewrite Hlow. now replace (n1 + (i + 1)) with (n1 + i + 1) by lia.
Qed.

Lemma scan_right (l1 : list (string * slice)) (len a : nat)
      (st st' st2 : loop_state) :
  moved l1 st st' ->
  for_range (index_step d cat2) (seq a len) st' = Ok st2 ->
  exists st3,
    for_range (index_step d (cat1 ++ cat2)) (seq (n1 + a) len) st = Ok st3 /\
    moved l1 st3 st2.
Proof.
  revert a st st'; induction len as [|len IH]; intros a st st' Hm Hrun;
    simpl in *.
  - injection Hrun as <-. exists st. now split.
  - destruct (index_step d cat2 a st') as [s'|] eqn:Hstep; simpl in Hrun;
      [|discriminate].
    destruct (index_step_right l1 a st st' s' Hm Hstep) as (s & Hs & Hm').
    rewrite Hs. simpl.
    replace (Datatypes.S (n1 + a)) with (n1 + Datatypes.S a) by lia.
    now apply (IH (Datatypes.S a) s s').
Qed.

Lemma scan_app (l1 l2 : list (string * slice)) :
  build_list_ID_slice d cat1 = Ok l1 ->
  build_list_ID_slice d cat2 = Ok l2 ->
  build_list_ID_slice d (cat1 ++ cat2) = Ok (l1 ++ map (shift n1) l2).
Proof.
  unfold build_list_ID_slice, scan. intros H1 H2.
  destruct (for_range (index_step d cat1) (seq 0 n1) init_state)
    as [st1|] eqn:E1; simpl in H1; [|discriminate].
  destruct (for_range (index_step d cat2) (seq 0 n2) init_state)
    as [st2|] eqn:E2; simpl in H2; [|discriminate].
  injection H1 as <-. injection H2 as <-.
  rewrite length_app, seq_app, for_range_app.
  rewrite (for_range_ext _ (index_step d (cat1 ++ cat2)) (index_step d cat1)).
  - rewrite E1. simpl.
    destruct (scan_inv_prefix d cat1 n1 st1 (le_n _) E1) as (_ & _ & Hlow).
    destruct (scan_right (list_ID_slice st1) n2 0 st1 init_state st2)
      as (st3 & Hrun & Hl & _).
    + split; simpl; [now rewrite app_nil_r | rewrite (Hlow eq_refl); lia].
    + exact E2.
    + replace (n1 + 0) with n1 in Hrun by lia.
      simpl. rewrite Hrun. simpl. now rewrite Hl.
  - intros i s Hi. apply in_seq in Hi. apply index_step_left. lia.
Qed.

End Append.

(** X20. The scan of two catalogs put one after the other, when the last
    row of the first and the first row of the second are not of one run, is
    the scan of the first followed by the scan of the second with its
    ranges moved down by the rows of the first. *)
Theorem scan_of_appended_catalogs
        (d : PyDict.dict props string) (cat1 cat2 : list member_row)
        (l1 l2 : list (string * slice)) :
  boundary cat1 cat2 ->
  build_list_ID_slice d cat1 = Ok l1 ->
  build_list_ID_slice d cat2 = Ok l2 ->
  build_list_ID_slice d (cat1 ++ cat2)
    = Ok (l1 ++ map (shift (List.length cat1)) l2) /\
  dict_ID_slice d (cat1 ++ cat2)
    = Ok (PyDict.of_list String.eqb
            (l1 ++ map (shift (List.length cat1)) l2)).
Proof.
  intros Hcut H1 H2.
  pose proof (scan_app d cat1 cat2 Hcut l1 l2 H1 H2) as H.
  split; [exact H|]. unfold dict_ID_slice. now rewrite H.
Qed.

(* ================================================================== *)
(** * The scan of a catalog sorted by cluster *)

Lemma one_run_nth (rows : list member_row) (i : nat) (a b : member_row) :
  one_run rows = true ->
  nth_error rows i = Some a -> nth_error rows (i + 1) = Some b ->
  same_run a b = true.
Proof.
  revert i; induction rows as [|x rows IH]; intros i Hrun Ha Hb.
  - destruct i; discriminate.
  - destruct rows as [|y rows]; [destruct i as [|[|i]]; discriminate|].
    cbn [one_run] in Hrun. apply andb_true_iff in Hrun.
    destruct Hrun as (Hxy & Hrest).
    destruct i as [|i]; simpl in Ha, Hb.
    + injection Ha as <-. injection Hb as <-. exact Hxy.
    + apply (IH i Hrest Ha Hb).
Qed.

Lemma for_range_skip (S : Type) (body : nat -> S -> result S)
      (range : list nat) (st : S) :
  (forall i, In i range -> body i st = Ok st) ->
  for_range body range st = Ok st.
Proof.
  induction range as [|i rest IH]; intros H; simpl; [reflexivity|].
  rewrite (H i) by now left. simpl. apply IH. intros j Hj. apply H.
  now right.
Qed.

(** A catalog that is one run gives one entry, over all its rows. *)
Lemma scan_one_run (d : PyDict.dict props string) (rows : list member_row)
      (ID : string) (row : member_row) :
  one_run rows = true ->
  last_row rows = Some row ->
  resolve_ID d (c0 row) (c1 row) (c3 row) = Ok ID ->
  build_list_ID_slice d rows = Ok [(ID, mkslice 0 (List.length rows))].
Proof.
  intros Hrun Hlast Hres. unfold last_row in Hlast.
  assert (Hn : List.length rows - 1 < List.length rows)
    by (apply nth_error_Some; congruence).
  unfold build_list_ID_slice, scan.
  replace (List.length rows) with ((List.length rows - 1) + 1) at 1 by lia.
  rewrite seq_app, for_range_app, for_range_skip.
  - simpl. rewrite (closing_row_step d rows _ row init_state Hlast).
    + rewrite Hres. simpl.
      now replace (List.length rows - 1 + 1) with (List.length rows) by lia.
    + unfold same_as_next. now rewrite Nat.ltb_irrefl.
  - intros i Hi. apply in_seq in Hi. unfold index_step.
    destruct (nth_error rows i) as [a|] eqn:Ha;
      [|apply nth_error_None in Ha; lia].
    unfold same_as_next.
    assert (E : (i <? List.length rows - 1) = true)
      by (apply Nat.ltb_lt; lia).
    rewrite E.
    destruct (nth_error rows (i + 1)) as [b|] eqn:Hb;
      [|apply nth_error_None in Hb; lia].
    pose proof (one_run_nth rows i a b Hrun Ha Hb) as Hab.
    unfold same_run in Hab. rewrite Hab. reflexivity.
Qed.

Lemma entries_shift (k off : nat) (blocks : list (string * list member_row)) :
  map (shift k) (entries_of off blocks) = entries_of (k + off) blocks.
Proof.
  revert off; induction blocks as [|[ID rows] rest IH]; intros off; simpl.
  - reflexivity.
  - rewrite IH. unfold shift; simpl.
    now replace (k + (off + List.length rows))
      with (k + off + List.length rows) by lia.
Qed.

Lemma entries_IDs (off : nat) (blocks : list (string * list member_row)) :
  map fst (entries_of off blocks) = map fst blocks.
Proof.
  revert off; induction blocks as [|[ID rows] rest IH]; intros off; simpl.
  - reflexivity.
  - now rewrite IH.
Qed.

Lemma scan_sorted (d : PyDict.dict props string)
      (blocks : list (string * list member_row)) :
  well_sorted d blocks ->
  build_list_ID_slice d (concat (map snd blocks)) = Ok (entries_of 0 blocks).
Proof.
  induction blocks as [|[ID rows] rest IH]; simpl.
  - reflexivity.
  - intros (Hrun & (row & Hlast & Hres) & Hcut & Hrest).
    rewrite (scan_app d rows (concat (map snd rest)) Hcut
               [(ID, mkslice 0 (List.length rows))] (entries_of 0 rest)).
    + now rewrite entries_shift, Nat.add_0_r.
    + now apply (scan_one_run d rows ID row).
    + now apply IH.
Qed.

(** X21. For a member catalog sorted by cluster, where each block is one
    run whose last row resolves to the block's ID and consecutive blocks
    are not of one run, the scan appends one entry per block: the block's
    ID with the rows of the block.  When the IDs of the blocks differ, the
    index answers each ID with exactly the range of its block. *)
Theorem index_of_sorted_catalog
        (d : PyDict.dict props string)
        (blocks : list (string * list member_row)) :
  well_sorted d blocks ->
  build_list_ID_slice d (concat (map snd blocks)) = Ok (entries_of 0 blocks) /\
  (NoDup (map fst blocks) ->
   exists idx,
     dict_ID_slice d (concat (map snd blocks)) = Ok idx /\
     PyDict.len idx = List.length blocks /\
     forall ID s, PyDict.get String.eqb idx ID = Some s <->
                  In (ID, s) (entries_of 0 blocks)).
Proof.
  intros Hsorted.
  pose proof (scan_sorted d blocks Hsorted) as Hbuild.
  split; [exact Hbuild|]. intros Hnd.
  exists (PyDict.of_list String.eqb (entries_of 0 blocks)).
  assert (Hnd' : NoDup (map fst (entries_of 0 blocks)))
    by now rewrite entries_IDs.
  split; [unfold dict_ID_slice; now rewrite Hbuild | split].
  - destruct (index_keys (entries_of 0 blocks)) as (Hk1 & Hk2).
    rewrite len_keys, <- (length_map fst blocks), <- (entries_IDs 0 blocks).
    apply Nat.le_antisymm; apply NoDup_incl_length; try assumption;
      intros x Hx; now apply Hk2.
  - intros ID s. rewrite index_get. now apply last_write_NoDup.
Qed.

(** The six-row catalog: A on rows 0 to 3, B on rows 4 and 5. *)
Lemma index_of_sorted_catalog_witness :
  build_list_ID_slice (dict_props_ID Examples.cl_cat)
                      (concat (map snd MoreExamples.blocks_AB))
  = Ok [("C19a1sW00001"%string, mkslice 0 4);
        ("C19a1sW00002"%string, mkslice 4 6)].
Proof.
  refine (proj1 (index_of_sorted_catalog
                   (dict_props_ID Examples.cl_cat) MoreExamples.blocks_AB _)).
  simpl. repeat split.
  - eexists. split; reflexivity.
  - intros a b Ha Hb. injection Ha as <-. injection Hb as <-. reflexivity.
  - eexists. split; reflexivity.
  - intros a b _ Hb. discriminate Hb.
Defined.

(** The rows of A, then the rows of B. *)
Lemma scan_of_appended_catalogs_witness :
  build_list_ID_slice (dict_props_ID Examples.cl_cat)
    (Examples.mem_cat_A_only ++ [Examples.mem_B 20.26 2.51 0.9])
  = Ok ([("C19a1sW00001"%string, mkslice 0 2)] ++
        map (shift 2) [("C19a1sW00002"%string, mkslice 0 1)]).
Proof.
  refine (proj1 (scan_of_appended_catalogs
                   (dict_props_ID Examples.cl_cat)
                   Examples.mem_cat_A_only [Examples.mem_B 20.26 2.51 0.9]
                   _ _ _ _ _)).
  - intros a b Ha Hb. injection Ha as <-. injection Hb as <-. reflexivity.
  - vm_compute. reflexivity.
  - vm_compute. reflexivity.
Defined.

(* ================================================================== *)
(** * The last cell: the loop over [misc_IDs] *)






(* ================================================================== *)
(** * The extractor takes no bounds *)

(** The claim of C3 fails: asked for the bounds (0.5, 1], the members of
    cluster A with probability above 0.5 are one, and the extractor, which
    takes no bounds, writes two: those with 0.1 < p <= 1. *)
Lemma extractor_bounds_counterexample :
  PyDict.get String.eqb MoreExamples.idx_AB "C19a1sW00001"%string
    = Some (mkslice 0 4) /\
  option_map art_X
    (PyDict.get String.eqb
       (snd (save_mem_list MoreExamples.idx_AB Examples.mem_cat
                           "C19a1sW00001"%string []))
       (mem_list_path "C19a1sW00001"%string))
    = Some [(10.49, -1.25); (10.5, -1.23)]%float /\
  map gal_coords
      (filter (prob_within 0.5 1) (getslice Examples.mem_cat (mkslice 0 4)))
    = [(10.5, -1.23)]%float /\
  ~ (forall idx full_member_cat ID s fs lo hi,
       PyDict.get String.eqb idx ID = Some s ->
       option_map art_X
         (PyDict.get String.eqb
            (snd (save_mem_list idx full_member_cat ID fs))
            (mem_list_path ID))
       = Some (map gal_coords
                   (filter (prob_within lo hi)
                           (getslice full_member_cat s)))).
Proof.
  split; [reflexivity | split; [reflexivity | split; [reflexivity|]]].
  intros H.
  specialize (H MoreExamples.idx_AB Examples.mem_cat "C19a1sW00001"%string
                (mkslice 0 4) [] 0.5%float 1%float eq_refl).
  vm_compute in H. discriminate H.
Qed.

(* ================================================================== *)
(** * Resolution of a run, from the lookup to the index *)

Lemma last_write_of_In (l : list (string * slice)) (ID : string) (s0 : slice) :
  In (ID, s0) l ->
  exists s, PyDict.last_write String.eqb l ID = Some s /\ In (ID, s) l.
Proof.
  induction l as [|[k v] l IH]; simpl; [tauto|].
  intros [[= -> ->]|Hin].
  - destruct (PyDict.last_write String.eqb l ID) as [s|] eqn:E.
    + exists s. split; [reflexivity|]. right.
      apply last_write_In in E. destruct E as (k' & Hk & Heq).
      apply String.eqb_eq in Heq. now subst.
    + rewrite String.eqb_refl. exists s0. split; [reflexivity | now left].
  - destruct (IH Hin) as (s & Hs & Hin'). rewrite Hs.
    exists s. split; [reflexivity | now right].
Qed.

(** C2. For the row [i] that closes a run, the ID is the one of the first
    key the identity map knows among: the run's (RA, dec, z), the same with
    z + 0.001 re-rounded to 3 decimals, the same with z - 0.001 re-rounded.
    When the map knows none of the three the [KeyError] leaves the scan: no
    list and no index are built.  When every closing row resolves, the scan
    ends, the list holds the run under the resolved ID with a range that
    stops at row [i + 1], and the index holds that ID with a range of the
    list: the run is not dropped. *)
Theorem run_ID_resolved_or_error
        (d : PyDict.dict props string) (full_member_cat : list member_row)
        (i : nat) (row : member_row) :
  nth_error full_member_cat i = Some row ->
  same_as_next full_member_cat i (c0 row) (c3 row) = Ok false ->
  resolve_ID d (c0 row) (c1 row) (c3 row) =
    first_hit d (candidate_keys (c0 row) (c1 row) (c3 row)) /\
  ((forall k, In k (candidate_keys (c0 row) (c1 row) (c3 row)) ->
              PyDict.get props_eqb d k = None) ->
   build_list_ID_slice d full_member_cat = Raise KeyError /\
   dict_ID_slice d full_member_cat = Raise KeyError) /\
  ((forall j row', closing full_member_cat j row' ->
      exists ID', resolve_ID d (c0 row') (c1 row') (c3 row') = Ok ID') ->
   exists l idx ID lo,
     build_list_ID_slice d full_member_cat = Ok l /\
     dict_ID_slice d full_member_cat = Ok idx /\
     resolve_ID d (c0 row) (c1 row) (c3 row) = Ok ID /\
     In (ID, mkslice lo (i + 1)) l /\
     (exists s, PyDict.get String.eqb idx ID = Some s /\ In (ID, s) l) /\
     (forall ID', PyDict.get String.eqb idx ID' =
                  PyDict.last_write String.eqb l ID')) /\
  (forall l, build_list_ID_slice d full_member_cat = Ok l ->
     exists ID lo,
       resolve_ID d (c0 row) (c1 row) (c3 row) = Ok ID /\
       In (ID, mkslice lo (i + 1)) l).
Proof.
  intros Hrow Hs.
  assert (Hi : i < List.length full_member_cat)
    by (apply nth_error_Some; congruence).
  assert (Hentry : forall l, build_list_ID_slice d full_member_cat = Ok l ->
     exists ID lo,
       resolve_ID d (c0 row) (c1 row) (c3 row) = Ok ID /\
       In (ID, mkslice lo (i + 1)) l).
  { intros l. unfold build_list_ID_slice, scan.
    rewrite (scan_split d full_member_cat i init_state Hi).
    destruct (for_range (index_step d full_member_cat) (seq 0 i) init_state)
      as [st|e] eqn:Hpre; cbn [bind]; [|discriminate].
    rewrite (closing_row_step d full_member_cat i row st Hrow Hs).
    intros Hl.
    destruct (resolve_ID d (c0 row) (c1 row) (c3 row)) as [ID|e] eqn:Hr;
      simpl in Hl; [|discriminate].
    match type of Hl with
    | bind ?run _ = _ => destruct run as [st'|e] eqn:Hpost
    end; simpl in Hl; [|discriminate].
    injection Hl as <-.
    assert (Hfit : (i + 1) + (List.length full_member_cat - (i + 1))
                   <= List.length full_member_cat) by lia.
    destruct (scan_appends d full_member_cat _ _ _ st' Hfit Hpost)
      as (ext & Hext).
    exists ID, (low_ind st). split; [reflexivity|].
    rewrite Hext. simpl. apply in_or_app. left. apply in_or_app. right.
    now left. }
  split; [apply resolve_ID_first_hit | split; [|split; [|exact Hentry]]].
  - intros Hmiss. unfold dict_ID_slice, build_list_ID_slice, scan.
    rewrite (scan_split d full_member_cat i init_state Hi).
    destruct (for_range (index_step d full_member_cat) (seq 0 i) init_state)
      as [st|e] eqn:Hpre; cbn [bind].
    + rewrite (closing_row_step d full_member_cat i row st Hrow Hs).
      rewrite resolve_ID_first_hit.
      rewrite (first_hit_all_miss _ _ Hmiss). split; reflexivity.
    + assert (He : e = KeyError)
        by (eapply (scan_prefix_raises d full_member_cat i);
            [lia | exact Hpre]).
      subst e. split; reflexivity.
  - intros Hall.
    destruct (scan_prefix_total d full_member_cat _ (le_n _) Hall)
      as (st & Hst).
    assert (Hbuild : build_list_ID_slice d full_member_cat
                     = Ok (list_ID_slice st))
      by (unfold build_list_ID_slice, scan; now rewrite Hst).
    destruct (Hentry _ Hbuild) as (ID & lo & Hr & Hin).
    exists (list_ID_slice st), (PyDict.of_list String.eqb (list_ID_slice st)),
      ID, lo.
    split; [exact Hbuild|].
    split; [unfold dict_ID_slice; now rewrite Hbuild|].
    split; [exact Hr | split; [exact Hin | split]].
    + destruct (last_write_of_In _ _ _ Hin) as (s & Hs' & Hin').
      exists s. split; [now rewrite index_get | exact Hin'].
    + intros ID'. apply index_get.
Qed.

(** The run of cluster A stored at z = 0.299: the exact key misses, the
    key nudged by +0.001 hits, and the index holds the ID of A. *)
Lemma run_ID_resolved_or_error_witness :
  PyDict.get props_eqb (dict_props_ID Examples.cl_cat)
             (10.5, -1.25, 0.299)%float = None /\
  resolve_ID (dict_props_ID Examples.cl_cat) 10.5 (-1.25) 0.299
    = Ok "C19a1sW00001"%string /\
  exists l idx s,
    build_list_ID_slice (dict_props_ID Examples.cl_cat)
                        MoreExamples.mem_cat_nudged = Ok l /\
    dict_ID_slice (dict_props_ID Examples.cl_cat)
                  MoreExamples.mem_cat_nudged = Ok idx /\
    PyDict.get String.eqb idx "C19a1sW00001"%string = Some s /\
    In ("C19a1sW00001"%string, s) l.
Proof.
  split; [vm_compute; reflexivity | split; [vm_compute; reflexivity|]].
  destruct (run_ID_resolved_or_error
              (dict_props_ID Examples.cl_cat) MoreExamples.mem_cat_nudged 1
              (mkmember 10.5 (-1.25) 0.299 10.52 (-1.26) 0.4)
              eq_refl eq_refl)
    as (_ & _ & H & _).
  destruct H as (l & idx & ID & lo & Hb & Hd & Hr & _ & (s & Hg & Hin) & _).
  - intros j row' (Hj & Hs).
    destruct j as [|[|[|j]]]; simpl in Hj.
    + injection Hj as <-. vm_compute in Hs. discriminate Hs.
    + injection Hj as <-. eexists. vm_compute. reflexivity.
    + injection Hj as <-. eexists. vm_compute. reflexivity.
    + destruct j; discriminate Hj.
  - assert (E : ID = "C19a1sW00001"%string)
      by (vm_compute in Hr; congruence).
    subst ID. exists l, idx, s. repeat split; assumption.
Defined.

(* ================================================================== *)
(** * The run boundary, from the test to the appended ranges *)

(** C5. Row [i] and the row after it are in the same run exactly when
    their RA are equal and their redshifts are equal: the test answers so,
    and when every closing row resolves the scan ends with a list in which
    one range holds both rows exactly in that case.  The test reads no
    other column: on a catalog with the same RA and redshift columns, and
    any declinations, it answers the same at every row, and a scan that ends
    appends the same ranges. *)
Theorem run_boundary_ignores_declination
        (cat : list member_row) (i : nat) (row next : member_row) :
  nth_error cat i = Some row ->
  nth_error cat (i + 1) = Some next ->
  (same_as_next cat i (c0 row) (c3 row) = Ok true <->
   (c0 row =? c0 next)%float = true /\ (c3 row =? c3 next)%float = true) /\
  (forall d,
     (forall j row', closing cat j row' ->
        exists ID, resolve_ID d (c0 row') (c1 row') (c3 row') = Ok ID) ->
     exists l, build_list_ID_slice d cat = Ok l /\
       ((exists ID s, In (ID, s) l /\ covers s i /\ covers s (i + 1)) <->
        (c0 row =? c0 next)%float = true /\
        (c3 row =? c3 next)%float = true)) /\
  (forall cat', map RA_and_z cat' = map RA_and_z cat ->
     (forall k ra z, same_as_next cat' k ra z = same_as_next cat k ra z) /\
     (forall d d' l l',
        build_list_ID_slice d cat = Ok l ->
        build_list_ID_slice d' cat' = Ok l' ->
        map snd l' = map snd l)).
Proof.
  intros Hrow Hnext.
  assert (Hlt : i + 1 < List.length cat)
    by (apply nth_error_Some; congruence).
  assert (Htest : same_as_next cat i (c0 row) (c3 row) = Ok true <->
     (c0 row =? c0 next)%float = true /\ (c3 row =? c3 next)%float = true).
  { unfold same_as_next. rewrite Hnext.
    assert (E : (i <? List.length cat - 1) = true)
      by (apply Nat.ltb_lt; lia).
    rewrite E. rewrite <- andb_true_iff.
    split; [now intros [= ->] | now intros ->]. }
  split; [exact Htest | split].
  - intros d Hall.
    destruct (scan_prefix_total d cat _ (le_n _) Hall) as (st & Hst).
    assert (Hbuild : build_list_ID_slice d cat = Ok (list_ID_slice st))
      by (unfold build_list_ID_slice, scan; now rewrite Hst).
    exists (list_ID_slice st). split; [exact Hbuild|].
    rewrite <- Htest. split.
    + intros (ID & s & Hin & Hc & Hc').
      destruct (run_inv_end d cat _ Hbuild (ID, s) Hin) as (_ & _ & Hlink & _).
      simpl in Hlink. unfold covers in Hc, Hc'.
      destruct (Hlink i) as (row' & Hrow' & Hs); [lia | lia |].
      rewrite Hrow in Hrow'. now injection Hrow' as <-.
    + intros Hs.
      pose proof (scan_ranges_chained d cat _ Hbuild) as Hch.
      destruct (chained_covers_all 0 _ _ i Hch) as (s & Hin & Hc); [lia|].
      apply in_map_iff in Hin. destruct Hin as ([ID s'] & Heq & Hin).
      simpl in Heq. subst s'.
      exists ID, s. split; [exact Hin | split; [exact Hc|]].
      destruct (run_inv_end d cat _ Hbuild (ID, s) Hin)
        as (_ & _ & _ & row' & (Hrow' & Hs') & _).
      simpl in Hrow', Hs'. unfold covers in *.
      destruct (Nat.eq_dec (stop s) (i + 1)) as [E|E]; [|lia].
      rewrite E in Hrow', Hs'. replace (i + 1 - 1) with i in * by lia.
      rewrite Hrow in Hrow'. injection Hrow' as <-. congruence.
  - intros cat' Hcols. split.
    + intros k ra z. now apply same_as_next_cols.
    + intros d d' l l'. unfold build_list_ID_slice, scan.
      rewrite (same_cols_length cat cat' Hcols).
      destruct (for_range (index_step d cat) _ init_state) as [st|] eqn:E1;
        simpl; [|discriminate].
      destruct (for_range (index_step d' cat') _ init_state) as [st'|] eqn:E2;
        simpl; [|discriminate].
      intros [= <-] [= <-].
      assert (Hin : forall j, In j (seq 0 (List.length cat)) ->
                              j < List.length cat)
        by (intros j Hj; apply in_seq in Hj; lia).
      destruct (scans_agree_on_ranges cat cat' Hcols d d' _ _ _ _ _
                  Hin eq_refl eq_refl E1 E2) as (H & _).
      now symmetry.
Qed.

(** Two rows with the same RA and redshift and declinations 7 and -1.25
    pass the test, and the scan puts them in one range. *)
Lemma run_boundary_ignores_declination_witness :
  same_as_next Examples.mem_cat_two_decs 0 10.5 0.3 = Ok true /\
  (c1 (mkmember 10.5 7 0.3 10.51 7.01 0.9) =?
   c1 (Examples.mem_A 10.52 (-1.26) 0.1))%float = false /\
  exists l ID s,
    build_list_ID_slice (dict_props_ID Examples.cl_cat)
                        Examples.mem_cat_two_decs = Ok l /\
    In (ID, s) l /\ covers s 0 /\ covers s 1.
Proof.
  destruct (run_boundary_ignores_declination
              Examples.mem_cat_two_decs 0
              (mkmember 10.5 7 0.3 10.51 7.01 0.9)
              (Examples.mem_A 10.52 (-1.26) 0.1) eq_refl eq_refl)
    as (Htest & Hscan & _).
  split; [apply (proj2 Htest); split; reflexivity | split; [reflexivity|]].
  destruct (Hscan (dict_props_ID Examples.cl_cat)) as (l & Hb & Hiff).
  - intros j row' (Hj & Hs).
    destruct j as [|[|j]]; simpl in Hj.
    + injection Hj as <-. vm_compute in Hs. discriminate Hs.
    + injection Hj as <-. eexists. vm_compute. reflexivity.
    + destruct j; discriminate Hj.
  - destruct (proj2 Hiff (conj eq_refl eq_refl)) as (ID & s & Hin & Hc & Hc').
    exists l, ID, s. repeat split; try assumption; apply Hc || apply Hc'.
Defined.
